(** * The Forge inventory subgraph: event handlers and backfill loop

    A shallow embedding of [src/mapping.ts] (the AssemblyScript event
    handlers that materialise the entity store) and of the chunked backfill
    and event ordering of the local indexer ([fetchRealData]), followed by
    the properties of the design document that are checked against them.

    Conventions.
    - [BigInt] is [Z]; [toString] on a [BigInt] is stdpp's [pretty].
    - [Bytes] values (addresses, hashes, role ids) are carried as the string
      that [toHex] renders.
    - The entity store has one finite map per entity type.  Entities whose id
      is the decimal rendering of a token id are keyed by the token id;
      entities whose id is [address.toHex() + "-" + tokenId.toString()] are
      keyed by the pair (the hex form of an address has a fixed width, so the
      joined string determines the pair); entities whose id is built from
      the transaction hash and the log index are keyed by that string.
    - A handler that hits a runtime abort (array index out of range, a JSON
      accessor applied to a value of another kind) returns [None]. *)

From stdpp Require Import gmap strings list fin_maps pretty sorting.
From Stdlib Require Import Ascii.
From Equations Require Import Equations.

Open Scope string_scope.
Open Scope Z_scope.

(** ** Event vocabulary *)

Definition Address := string.

Definition ZERO_ADDRESS : Address :=
  "0x0000000000000000000000000000000000000000".

Definition MINTER_ROLE : string :=
  "0x9f2df0fed2c77648de5860a4cc508cd0818c85b8b8a1ab4ceeef8d981c8956a6".
Definition DEFAULT_ADMIN_ROLE : string :=
  "0x0000000000000000000000000000000000000000".

(** The fields of [ethereum.Event] (with its block and transaction) that the
    handlers read. *)
Record EthEvent := {
  ev_address : Address;
  ev_logIndex : Z;
  block_number : Z;
  block_hash : string;
  block_timestamp : Z;
  tx_hash : string;
  tx_index : Z;
  tx_from : Address;
  tx_to : option Address;
  tx_value : Z;
  tx_gasPrice : Z
}.

Inductive Event :=
| TokenCreated (event : EthEvent) (tokenId tokenType : Z)
    (category subCategory : string)
| TransferSingle (event : EthEvent) (operator from to : Address) (id value : Z)
| TransferBatch (event : EthEvent) (operator from to : Address)
    (ids values : list Z)
| RoleGranted (event : EthEvent) (role : string) (account sender : Address)
| RoleRevoked (event : EthEvent) (role : string) (account sender : Address).

(** ** Entities *)

Record Token := {
  t_tokenId : Z;
  t_tokenType : Z;
  t_category : string;
  t_subCategory : string;
  t_soulbound : bool;
  t_maxSupply : Z;
  currentSupply : Z;
  t_creator : Address;
  t_createdAt : Z;
  t_createdAtBlock : Z;
  t_createdTxHash : string;
  t_tokenURI : option string;
  t_metadata : option Z;
  t_name : string;
  t_description : string;
  t_image : string;
  t_rewardId : string;
  t_forgeId : option string
}.

Record TokenMetadata := {
  md_id : Z;
  md_token : Z;
  md_name : string;
  md_description : string;
  md_image : string;
  md_rewardId : string;
  md_properties : option Z
}.

Record TokenProperties := {
  tp_metadata : Z;
  tp_badgeType : string;
  tp_createdBy : string;
  tp_rewardId : string;
  tp_forgeId : string
}.

Record TokenAttribute := {
  ta_metadata : Z;
  ta_traitType : string;
  ta_value : string
}.

Record TokenCreation := {
  tc_token : Z;
  tc_tokenId : Z;
  tc_tokenType : Z;
  tc_category : string;
  tc_subCategory : string;
  tc_creator : Address;
  tc_timestamp : Z;
  tc_blockNumber : Z;
  tc_transactionHash : string
}.

Record TokenMint := {
  tm_token : Z;
  tm_to : Address;
  tm_amount : Z;
  tm_timestamp : Z;
  tm_blockNumber : Z;
  tm_transactionHash : string;
  tm_operator : Address;
  tm_tokenName : option string;
  tm_tokenDescription : option string;
  tm_tokenImage : option string;
  tm_tokenCategory : option string;
  tm_tokenSubCategory : option string;
  tm_rewardId : option string;
  tm_tokenForgeId : option string
}.

Record User := {
  u_address : Address;
  totalTokensCreated : Z;
  totalTokensMinted : Z;
  firstInteraction : Z;
  lastInteraction : Z;
  totalInventoryValue : Z
}.

Record UserTokenBalance := {
  b_user : Address;
  b_token : Z;
  balance : Z;
  b_lastUpdated : Z
}.

Record UserInventoryItem := {
  ii_user : Address;
  ii_token : Z;
  ii_balance : Z;
  ii_firstAcquired : Z;
  ii_tokenType : Z;
  ii_category : string;
  ii_subCategory : string;
  ii_rewardId : string;
  ii_lastUpdated : Z;
  ii_lastAcquired : Z
}.

Record RoleChange := {
  rc_role : string;
  rc_roleName : string;
  rc_account : Address;
  rc_sender : Address;
  rc_granted : bool;
  rc_timestamp : Z;
  rc_blockNumber : Z;
  rc_transactionHash : string
}.

Record GlobalStats := {
  totalTokens : Z;
  totalMints : Z;
  totalUsers : Z;
  totalSupply : Z;
  totalEvents : Z;
  gs_lastUpdated : Z
}.

Record DailyStats := {
  ds_date : Z;
  tokensCreated : Z;
  tokensMinted : Z;
  activeUsers : Z;
  totalSupplyChange : Z
}.

(** The payload of a journal row: the fields each handler sets besides the
    fields copied from the event, block and transaction. *)
Inductive Payload :=
| PCreated (tokenId tokenType : Z) (category subCategory : string)
    (creator : Address)
| PTransferSingle (fromAddress toAddress : Address) (amount : Z)
    (operator : Address) (tokenId : Z)
| PTransferBatch (fromAddress toAddress : Address) (amounts tokenIds : list Z)
    (operator : Address)
| PMint (toAddress : Address) (amount : Z) (operator : Address) (tokenId : Z)
| PRole (role roleHash : string) (account sender : Address).

Record AllEvent := {
  eventType : string;
  ae_blockNumber : Z;
  ae_blockHash : string;
  ae_transactionHash : string;
  ae_transactionIndex : Z;
  ae_logIndex : Z;
  ae_timestamp : Z;
  ae_gasPrice : Z;
  ae_from : Address;
  ae_to : option Address;
  ae_value : Z;
  ae_description : string;
  ae_payload : Payload
}.

(** ** The entity store *)

#[projections(primitive)]
Record Store := {
  tokens : gmap Z Token;
  tokenMetadata : gmap Z TokenMetadata;
  tokenProperties : gmap Z TokenProperties;
  tokenAttributes : gmap (Z * nat) TokenAttribute;
  tokenCreations : gmap string TokenCreation;
  tokenMints : gmap string TokenMint;
  users : gmap Address User;
  balances : gmap (Address * Z) UserTokenBalance;
  inventory : gmap (Address * Z) UserInventoryItem;
  roleChanges : gmap string RoleChange;
  globalStats : option GlobalStats;
  dailyStats : gmap Z DailyStats;
  allEvents : gmap string AllEvent
}.

Definition emptyStore : Store :=
  {| tokens := ∅; tokenMetadata := ∅; tokenProperties := ∅;
     tokenAttributes := ∅; tokenCreations := ∅; tokenMints := ∅; users := ∅;
     balances := ∅; inventory := ∅; roleChanges := ∅; globalStats := None;
     dailyStats := ∅; allEvents := ∅ |}.

(** Field updates of the store ([entity.save()] and [store.remove] act on one
    collection and leave the others as they are). *)
Definition with_tokens (f : gmap Z Token → gmap Z Token) (s : Store) : Store :=
  {| tokens := f (tokens s); tokenMetadata := tokenMetadata s;
     tokenProperties := tokenProperties s;
     tokenAttributes := tokenAttributes s;
     tokenCreations := tokenCreations s; tokenMints := tokenMints s;
     users := users s; balances := balances s; inventory := inventory s;
     roleChanges := roleChanges s; globalStats := globalStats s;
     dailyStats := dailyStats s; allEvents := allEvents s |}.

Definition with_tokenMetadata
    (f : gmap Z TokenMetadata → gmap Z TokenMetadata) (s : Store) : Store :=
  {| tokens := tokens s; tokenMetadata := f (tokenMetadata s);
     tokenProperties := tokenProperties s;
     tokenAttributes := tokenAttributes s;
     tokenCreations := tokenCreations s; tokenMints := tokenMints s;
     users := users s; balances := balances s; inventory := inventory s;
     roleChanges := roleChanges s; globalStats := globalStats s;
     dailyStats := dailyStats s; allEvents := allEvents s |}.

Definition with_tokenProperties
    (f : gmap Z TokenProperties → gmap Z TokenProperties) (s : Store) : Store :=
  {| tokens := tokens s; tokenMetadata := tokenMetadata s;
     tokenProperties := f (tokenProperties s);
     tokenAttributes := tokenAttributes s;
     tokenCreations := tokenCreations s; tokenMints := tokenMints s;
     users := users s; balances := balances s; inventory := inventory s;
     roleChanges := roleChanges s; globalStats := globalStats s;
     dailyStats := dailyStats s; allEvents := allEvents s |}.

Definition with_tokenAttributes
    (f : gmap (Z * nat) TokenAttribute → gmap (Z * nat) TokenAttribute)
    (s : Store) : Store :=
  {| tokens := tokens s; tokenMetadata := tokenMetadata s;
     tokenProperties := tokenProperties s;
     tokenAttributes := f (tokenAttributes s);
     tokenCreations := tokenCreations s; tokenMints := tokenMints s;
     users := users s; balances := balances s; inventory := inventory s;
     roleChanges := roleChanges s; globalStats := globalStats s;
     dailyStats := dailyStats s; allEvents := allEvents s |}.

Definition with_tokenCreations
    (f : gmap string TokenCreation → gmap string TokenCreation)
    (s : Store) : Store :=
  {| tokens := tokens s; tokenMetadata := tokenMetadata s;
     tokenProperties := tokenProperties s;
     tokenAttributes := tokenAttributes s;
     tokenCreations := f (tokenCreations s); tokenMints := tokenMints s;
     users := users s; balances := balances s; inventory := inventory s;
     roleChanges := roleChanges s; globalStats := globalStats s;
     dailyStats := dailyStats s; allEvents := allEvents s |}.

Definition with_tokenMints
    (f : gmap string TokenMint → gmap string TokenMint) (s : Store) : Store :=
  {| tokens := tokens s; tokenMetadata := tokenMetadata s;
     tokenProperties := tokenProperties s;
     tokenAttributes := tokenAttributes s;
     tokenCreations := tokenCreations s; tokenMints := f (tokenMints s);
     users := users s; balances := balances s; inventory := inventory s;
     roleChanges := roleChanges s; globalStats := globalStats s;
     dailyStats := dailyStats s; allEvents := allEvents s |}.

Definition with_users
    (f : gmap Address User → gmap Address User) (s : Store) : Store :=
  {| tokens := tokens s; tokenMetadata := tokenMetadata s;
     tokenProperties := tokenProperties s;
     tokenAttributes := tokenAttributes s;
     tokenCreations := tokenCreations s; tokenMints := tokenMints s;
     users := f (users s); balances := balances s; inventory := inventory s;
     roleChanges := roleChanges s; globalStats := globalStats s;
     dailyStats := dailyStats s; allEvents := allEvents s |}.

Definition with_balances
    (f : gmap (Address * Z) UserTokenBalance
         → gmap (Address * Z) UserTokenBalance) (s : Store) : Store :=
  {| tokens := tokens s; tokenMetadata := tokenMetadata s;
     tokenProperties := tokenProperties s;
     tokenAttributes := tokenAttributes s;
     tokenCreations := tokenCreations s; tokenMints := tokenMints s;
     users := users s; balances := f (balances s); inventory := inventory s;
     roleChanges := roleChanges s; globalStats := globalStats s;
     dailyStats := dailyStats s; allEvents := allEvents s |}.

Definition with_inventory
    (f : gmap (Address * Z) UserInventoryItem
         → gmap (Address * Z) UserInventoryItem) (s : Store) : Store :=
  {| tokens := tokens s; tokenMetadata := tokenMetadata s;
     tokenProperties := tokenProperties s;
     tokenAttributes := tokenAttributes s;
     tokenCreations := tokenCreations s; tokenMints := tokenMints s;
     users := users s; balances := balances s; inventory := f (inventory s);
     roleChanges := roleChanges s; globalStats := globalStats s;
     dailyStats := dailyStats s; allEvents := allEvents s |}.

Definition with_roleChanges
    (f : gmap string RoleChange → gmap string RoleChange) (s : Store) : Store :=
  {| tokens := tokens s; tokenMetadata := tokenMetadata s;
     tokenProperties := tokenProperties s;
     tokenAttributes := tokenAttributes s;
     tokenCreations := tokenCreations s; tokenMints := tokenMints s;
     users := users s; balances := balances s; inventory := inventory s;
     roleChanges := f (roleChanges s); globalStats := globalStats s;
     dailyStats := dailyStats s; allEvents := allEvents s |}.

Definition with_globalStats (g : GlobalStats) (s : Store) : Store :=
  {| tokens := tokens s; tokenMetadata := tokenMetadata s;
     tokenProperties := tokenProperties s;
     tokenAttributes := tokenAttributes s;
     tokenCreations := tokenCreations s; tokenMints := tokenMints s;
     users := users s; balances := balances s; inventory := inventory s;
     roleChanges := roleChanges s; globalStats := Some g;
     dailyStats := dailyStats s; allEvents := allEvents s |}.

Definition with_dailyStats
    (f : gmap Z DailyStats → gmap Z DailyStats) (s : Store) : Store :=
  {| tokens := tokens s; tokenMetadata := tokenMetadata s;
     tokenProperties := tokenProperties s;
     tokenAttributes := tokenAttributes s;
     tokenCreations := tokenCreations s; tokenMints := tokenMints s;
     users := users s; balances := balances s; inventory := inventory s;
     roleChanges := roleChanges s; globalStats := globalStats s;
     dailyStats := f (dailyStats s); allEvents := allEvents s |}.

Definition with_allEvents
    (f : gmap string AllEvent → gmap string AllEvent) (s : Store) : Store :=
  {| tokens := tokens s; tokenMetadata := tokenMetadata s;
     tokenProperties := tokenProperties s;
     tokenAttributes := tokenAttributes s;
     tokenCreations := tokenCreations s; tokenMints := tokenMints s;
     users := users s; balances := balances s; inventory := inventory s;
     roleChanges := roleChanges s; globalStats := globalStats s;
     dailyStats := dailyStats s; allEvents := f (allEvents s) |}.

(** ** Aggregates: [updateGlobalStats], [updateDailyStats] *)

Definition newGlobalStats : GlobalStats :=
  {| totalTokens := 0; totalMints := 0; totalUsers := 0; totalSupply := 0;
     totalEvents := 0; gs_lastUpdated := 0 |}.

Definition updateGlobalStats (timestamp : Z)
    (incrementTokens incrementMints incrementUsers : bool) (s : Store)
    : Store :=
  let g := match globalStats s with
           | Some g => g
           | None => newGlobalStats
           end in
  with_globalStats
    {| totalTokens := if incrementTokens then totalTokens g + 1
                      else totalTokens g;
       totalMints := if incrementMints then totalMints g + 1
                     else totalMints g;
       totalUsers := if incrementUsers then totalUsers g + 1
                     else totalUsers g;
       totalSupply := totalSupply g;
       totalEvents := totalEvents g + 1;
       gs_lastUpdated := timestamp |} s.

(** [timestamp.div(BigInt.fromI32(86400))]: [BigInt] division truncates. *)
Definition dayOf (timestamp : Z) : Z := timestamp `quot` 86400.

Definition updateDailyStats (timestamp : Z)
    (incrementTokens incrementMints : bool) (s : Store) : Store :=
  let date := dayOf timestamp in
  let d := match dailyStats s !! date with
           | Some d => d
           | None => {| ds_date := dayOf timestamp; tokensCreated := 0;
                        tokensMinted := 0; activeUsers := 0;
                        totalSupplyChange := 0 |}
           end in
  with_dailyStats
    (insert date
       {| ds_date := ds_date d;
          tokensCreated := if incrementTokens then tokensCreated d + 1
                           else tokensCreated d;
          tokensMinted := if incrementMints then tokensMinted d + 1
                          else tokensMinted d;
          activeUsers := activeUsers d + 1;
          totalSupplyChange := totalSupplyChange d |}) s.

(** ** Users and balances: [getOrCreateUser], [updateUserBalance] *)

Definition newUser (address : Address) : User :=
  {| u_address := address; totalTokensCreated := 0; totalTokensMinted := 0;
     firstInteraction := 0; lastInteraction := 0; totalInventoryValue := 0 |}.

Definition getOrCreateUser (address : Address) (s : Store) : User * Store :=
  let userId := address in
  let '(user, s) :=
    match users s !! userId with
    | Some user => (user, s)
    | None => (newUser address, updateGlobalStats 0 false false true s)
    end in
  let user :=
    if decide (firstInteraction user = 0)
    then {| u_address := u_address user;
            totalTokensCreated := totalTokensCreated user;
            totalTokensMinted := totalTokensMinted user;
            firstInteraction := 0;
            lastInteraction := lastInteraction user;
            totalInventoryValue := totalInventoryValue user |}
    else user in
  (user, with_users (insert userId user) s).

Definition updateUserBalance (address : Address) (tokenId amount timestamp : Z)
    (s : Store) : Store :=
  let userId := address in
  let balanceId := (userId, tokenId) in
  let b := match balances s !! balanceId with
           | Some b => b
           | None => {| b_user := userId; b_token := tokenId; balance := 0;
                        b_lastUpdated := 0 |}
           end in
  let b := {| b_user := b_user b; b_token := b_token b;
              balance := balance b + amount;
              b_lastUpdated := timestamp |} in
  let s := if decide (balance b = 0)
           then with_balances (delete balanceId) s
           else with_balances (insert balanceId b) s in
  let '(user, s) := getOrCreateUser address s in
  with_users
    (insert userId
       {| u_address := u_address user;
          totalTokensCreated := totalTokensCreated user;
          totalTokensMinted := totalTokensMinted user;
          firstInteraction := firstInteraction user;
          lastInteraction := timestamp;
          totalInventoryValue := totalInventoryValue user + amount |}) s.

Definition getRoleName (role : string) : string :=
  if decide (role = MINTER_ROLE) then "MINTER"
  else if decide (role = DEFAULT_ADMIN_ROLE) then "DEFAULT_ADMIN"
  else "UNKNOWN".

(** ** Journal rows *)

(** [event.transaction.hash.toHex() + "-" + event.logIndex.toString()] *)
Definition eventIdOf (event : EthEvent) : string :=
  tx_hash event +:+ "-" +:+ pretty (ev_logIndex event).

(** The fields every handler copies from the event into its journal row. *)
Definition journalRow (type description : string) (event : EthEvent)
    (payload : Payload) : AllEvent :=
  {| eventType := type;
     ae_blockNumber := block_number event;
     ae_blockHash := block_hash event;
     ae_transactionHash := tx_hash event;
     ae_transactionIndex := tx_index event;
     ae_logIndex := ev_logIndex event;
     ae_timestamp := block_timestamp event;
     ae_gasPrice := tx_gasPrice event;
     ae_from := tx_from event;
     ae_to := tx_to event;
     ae_value := tx_value event;
     ae_description := description;
     ae_payload := payload |}.

(** ** Mint sub-transition: [handleTokenMint] *)

Definition handleTokenMint (to : Address) (tokenId amount : Z)
    (operator : Address) (event : EthEvent) (s : Store) : Store :=
  let mintId := tx_hash event +:+ "-" +:+ pretty (ev_logIndex event)
                +:+ "-" +:+ pretty tokenId in
  let '(toUser, s) := getOrCreateUser to s in
  let tokenEntity := tokens s !! tokenId in
  let mint :=
    {| tm_token := tokenId; tm_to := to; tm_amount := amount;
       tm_timestamp := block_timestamp event;
       tm_blockNumber := block_number event;
       tm_transactionHash := tx_hash event;
       tm_operator := operator;
       tm_tokenName := t_name <$> tokenEntity;
       tm_tokenDescription := t_description <$> tokenEntity;
       tm_tokenImage := t_image <$> tokenEntity;
       tm_tokenCategory := t_category <$> tokenEntity;
       tm_tokenSubCategory := t_subCategory <$> tokenEntity;
       tm_rewardId := t_rewardId <$> tokenEntity;
       tm_tokenForgeId := tokenEntity ≫= t_forgeId |} in
  let s := with_tokenMints (insert mintId mint) s in
  let s :=
    match tokenEntity with
    | Some t =>
        with_tokens
          (insert tokenId
             {| t_tokenId := t_tokenId t; t_tokenType := t_tokenType t;
                t_category := t_category t; t_subCategory := t_subCategory t;
                t_soulbound := t_soulbound t; t_maxSupply := t_maxSupply t;
                currentSupply := currentSupply t + amount;
                t_creator := t_creator t; t_createdAt := t_createdAt t;
                t_createdAtBlock := t_createdAtBlock t;
                t_createdTxHash := t_createdTxHash t;
                t_tokenURI := t_tokenURI t; t_metadata := t_metadata t;
                t_name := t_name t; t_description := t_description t;
                t_image := t_image t; t_rewardId := t_rewardId t;
                t_forgeId := t_forgeId t |}) s
    | None => s
    end in
  let s := updateUserBalance to tokenId amount (block_timestamp event) s in
  let inventoryId := (to, tokenId) in
  let '(item, s) :=
    match inventory s !! inventoryId with
    | Some item => (item, s)
    | None =>
        let '(u, s) := getOrCreateUser to s in
        ({| ii_user := to; ii_token := tokenId; ii_balance := 0;
            ii_firstAcquired := block_timestamp event;
            ii_tokenType := from_option t_tokenType 0 tokenEntity;
            ii_category := from_option t_category "" tokenEntity;
            ii_subCategory := from_option t_subCategory "" tokenEntity;
            ii_rewardId := from_option t_rewardId "" tokenEntity;
            ii_lastUpdated := 0; ii_lastAcquired := 0 |}, s)
    end in
  let s :=
    with_inventory
      (insert inventoryId
         {| ii_user := ii_user item; ii_token := ii_token item;
            ii_balance := ii_balance item + amount;
            ii_firstAcquired := ii_firstAcquired item;
            ii_tokenType := ii_tokenType item;
            ii_category := ii_category item;
            ii_subCategory := ii_subCategory item;
            ii_rewardId := ii_rewardId item;
            ii_lastUpdated := block_timestamp event;
            ii_lastAcquired := block_timestamp event |}) s in
  let '(user, s) := getOrCreateUser to s in
  let s :=
    with_users
      (insert to
         {| u_address := u_address user;
            totalTokensCreated := totalTokensCreated user;
            totalTokensMinted := totalTokensMinted user + amount;
            firstInteraction := firstInteraction user;
            lastInteraction := block_timestamp event;
            totalInventoryValue := totalInventoryValue user |}) s in
  let s := updateGlobalStats (block_timestamp event) false true false s in
  let s := updateDailyStats (block_timestamp event) false true s in
  let eventId := tx_hash event +:+ "-" +:+ pretty (ev_logIndex event) in
  with_allEvents
    (insert eventId
       (journalRow "TokenMint" ("Mint of token ID: " +:+ pretty tokenId) event
          (PMint to amount operator tokenId))) s.

(** ** Transfers: [handleTransferSingle], [handleTransferBatch] *)

Definition handleTransferSingle (event : EthEvent)
    (operator from to : Address) (tokenId amount : Z) (s : Store) : Store :=
  if decide (from = ZERO_ADDRESS)
  then handleTokenMint to tokenId amount operator event s
  else
    let s := updateUserBalance from tokenId (- amount)
               (block_timestamp event) s in
    let s := updateUserBalance to tokenId amount (block_timestamp event) s in
    with_allEvents
      (insert (eventIdOf event)
         (journalRow "TransferSingle"
            ("Single transfer of token ID: " +:+ pretty tokenId) event
            (PTransferSingle from to amount operator tokenId))) s.

(** The body of the [for] loop over [ids]; [values[i]] aborts when the values
    array is shorter than the ids array. *)
Fixpoint transferBatchLoop (event : EthEvent) (operator from to : Address)
    (ids values : list Z) (s : Store) : option Store :=
  match ids with
  | [] => Some s
  | tokenId :: ids =>
      match values with
      | [] => None
      | amount :: values =>
          let s :=
            if decide (from = ZERO_ADDRESS)
            then handleTokenMint to tokenId amount operator event s
            else
              let s := updateUserBalance from tokenId (- amount)
                         (block_timestamp event) s in
              updateUserBalance to tokenId amount (block_timestamp event) s in
          transferBatchLoop event operator from to ids values s
      end
  end.

Definition handleTransferBatch (event : EthEvent)
    (operator from to : Address) (ids values : list Z) (s : Store)
    : option Store :=
  s ← transferBatchLoop event operator from to ids values s;
  Some (with_allEvents
          (insert (eventIdOf event)
             (journalRow "TransferBatch" "Batch transfer of tokens" event
                (PTransferBatch from to values ids operator))) s).

(** ** Roles: [handleRoleGranted], [handleRoleRevoked] *)

Definition handleRoleChange (granted : bool) (event : EthEvent)
    (role : string) (account sender : Address) (s : Store) : Store :=
  let roleChangeId := eventIdOf event in
  let '(accountUser, s) := getOrCreateUser account s in
  let s :=
    with_roleChanges
      (insert roleChangeId
         {| rc_role := role; rc_roleName := getRoleName role;
            rc_account := account; rc_sender := sender;
            rc_granted := granted;
            rc_timestamp := block_timestamp event;
            rc_blockNumber := block_number event;
            rc_transactionHash := tx_hash event |}) s in
  let '(user, s) := getOrCreateUser account s in
  let s :=
    with_users
      (insert account
         {| u_address := u_address user;
            totalTokensCreated := totalTokensCreated user;
            totalTokensMinted := totalTokensMinted user;
            firstInteraction := firstInteraction user;
            lastInteraction := block_timestamp event;
            totalInventoryValue := totalInventoryValue user |}) s in
  with_allEvents
    (insert (eventIdOf event)
       (journalRow (if granted then "RoleGranted" else "RoleRevoked")
          ((if granted then "Role granted: " else "Role revoked: ")
           +:+ getRoleName role) event
          (PRole role role account sender))) s.

Definition handleRoleGranted := handleRoleChange true.
Definition handleRoleRevoked := handleRoleChange false.

(** ** Metadata resolver: [fetchAndParseMetadata] *)

(** JSON values as [graph-ts] exposes them; an object is its list of
    entries in document order. *)
#[local] Set Warnings "-register-all".
Inductive JSONValue :=
| JNull
| JBool (b : bool)
| JNumber (digits : string)
| JString (s : string)
| JArray (items : list JSONValue)
| JObject (entries : list (string * JSONValue)).

(** The accessors abort on a value of another kind. *)
Definition toObject (v : JSONValue) : option (list (string * JSONValue)) :=
  match v with JObject entries => Some entries | _ => None end.
Definition toArray (v : JSONValue) : option (list JSONValue) :=
  match v with JArray items => Some items | _ => None end.
Definition toString (v : JSONValue) : option string :=
  match v with JString s => Some s | _ => None end.
Definition isArray (v : JSONValue) : bool :=
  match v with JArray _ => true | _ => false end.

(** [TypedMap.get]: the first entry with the key, or null. *)
Fixpoint get (key : string) (entries : list (string * JSONValue))
    : option JSONValue :=
  match entries with
  | [] => None
  | (k, v) :: entries => if decide (k = key) then Some v else get key entries
  end.

Record HttpResponse := { status : Z; body : string }.

(** What the handler reaches outside the store.  The resolver retrieves the
    content twice (once for the descriptive fields, once for the
    properties); [attempt] is the ordinal of the retrieval. *)
Record Net := {
  try_uri : Z → option string;
  http_get : nat → string → option HttpResponse;
  ipfs_cat : nat → string → option string;
  try_fromBytes : string → option JSONValue
}.

Fixpoint dropChars (n : nat) (s : string) : string :=
  match n, s with
  | S n, String _ s => dropChars n s
  | _, _ => s
  end.

(** [s.replace(search, replacement)] replaces the first occurrence. *)
Fixpoint replace (search replacement s : string) : string :=
  if String.prefix search s
  then replacement +:+ dropChars (String.length search) s
  else match s with
       | "" => ""
       | String c s => String c (replace search replacement s)
       end.

(** [s.split("/")[0]] *)
Fixpoint firstSegment (s : string) : string :=
  match s with
  | "" => ""
  | String c s => if Ascii.eqb c "/"%char then "" else String c (firstSegment s)
  end.

Definition startsWith (s pre : string) : bool := String.prefix pre s.

(** [!tokenURI] on a nullable string: null or empty. *)
Definition isFalsy (tokenURI : option string) : bool :=
  match tokenURI with
  | None => true
  | Some uri => bool_decide (uri = "")
  end.

Definition defaultMetadata (tokenId : Z) : TokenMetadata :=
  {| md_id := tokenId; md_token := tokenId;
     md_name := "Token " +:+ pretty tokenId;
     md_description := "Description for token " +:+ pretty tokenId;
     md_image := ""; md_rewardId := ""; md_properties := None |}.

(** [if (field) metadata.x = field.toString()] *)
Definition overrideWith (field : option JSONValue) (current : string)
    : option string :=
  match field with
  | Some v => toString v
  | None => Some current
  end.

(** The loop over the [attributes] array, from index [i]. *)
Fixpoint saveAttributes (tokenId : Z) (i : nat) (attrArray : list JSONValue)
    (s : Store) : option Store :=
  match attrArray with
  | [] => Some s
  | attr :: attrArray =>
      attrObj ← toObject attr;
      s ← match get "trait_type" attrObj, get "value" attrObj with
          | Some traitType, Some value =>
              traitType ← toString traitType;
              value ← toString value;
              Some (with_tokenAttributes
                      (insert (tokenId, i)
                         {| ta_metadata := tokenId; ta_traitType := traitType;
                            ta_value := value |}) s)
          | _, _ => Some s
          end;
      saveAttributes tokenId (S i) attrArray s
  end.

(** The block run on a successfully parsed document (the HTTP and the IPFS
    branch carry the same text). *)
Definition applyMetadataJson (tokenId : Z) (metadataJson : JSONValue)
    (metadata : TokenMetadata) (s : Store) : option (TokenMetadata * Store) :=
  metadataObj ← toObject metadataJson;
  name ← overrideWith (get "name" metadataObj) (md_name metadata);
  description ← overrideWith (get "description" metadataObj)
                  (md_description metadata);
  image ← overrideWith (get "image" metadataObj) (md_image metadata);
  rewardId ← overrideWith (get "rewardId" metadataObj) (md_rewardId metadata);
  let metadata :=
    {| md_id := md_id metadata; md_token := md_token metadata;
       md_name := name; md_description := description; md_image := image;
       md_rewardId := rewardId; md_properties := md_properties metadata |} in
  s ← match get "attributes" metadataObj with
      | Some attributes =>
          if isArray attributes
          then attrArray ← toArray attributes;
               saveAttributes tokenId 0 attrArray s
          else Some s
      | None => Some s
      end;
  Some (metadata, s).

(** The bytes the first (or second) pass retrieves for a URI, when the
    retrieval succeeds: an HTTP response with status 200, or the IPFS
    content of the first path segment. *)
Definition retrieve (net : Net) (attempt : nat) (tokenURI : string)
    : option string :=
  if startsWith tokenURI "http" then
    match http_get net attempt tokenURI with
    | Some response =>
        if decide (status response = 200) then Some (body response) else None
    | None => None
    end
  else if startsWith tokenURI "ipfs://" then
    ipfs_cat net attempt (firstSegment (replace "ipfs://" "" tokenURI))
  else None.

(** The second pass: the forge id of the document, copied to the properties
    and to the reward id of the metadata. *)
Definition forgeIdPass (net : Net) (tokenURI : string)
    (properties : TokenProperties) (metadata : TokenMetadata)
    : option (TokenProperties * TokenMetadata) :=
  match retrieve net 1 tokenURI ≫= try_fromBytes net with
  | Some metadataJson =>
      metadataObj ← toObject metadataJson;
      match get "forge_id" metadataObj with
      | Some forgeId =>
          forgeId ← toString forgeId;
          Some ({| tp_metadata := tp_metadata properties;
                   tp_badgeType := tp_badgeType properties;
                   tp_createdBy := tp_createdBy properties;
                   tp_rewardId := tp_rewardId properties;
                   tp_forgeId := forgeId |},
                {| md_id := md_id metadata; md_token := md_token metadata;
                   md_name := md_name metadata;
                   md_description := md_description metadata;
                   md_image := md_image metadata; md_rewardId := forgeId;
                   md_properties := md_properties metadata |})
      | None => Some (properties, metadata)
      end
  | None => Some (properties, metadata)
  end.

Definition fetchAndParseMetadata (net : Net) (tokenId : Z)
    (tokenURI : option string) (s : Store) : option (TokenMetadata * Store) :=
  let metadata := defaultMetadata tokenId in
  match tokenURI with
  | Some uri =>
      if isFalsy tokenURI
      then Some (metadata, with_tokenMetadata (insert tokenId metadata) s)
      else
        '(metadata, s) ←
          match retrieve net 0 uri ≫= try_fromBytes net with
          | Some metadataJson => applyMetadataJson tokenId metadataJson metadata s
          | None => Some (metadata, s)
          end;
        let properties :=
          {| tp_metadata := tokenId; tp_badgeType := ""; tp_createdBy := "";
             tp_rewardId := md_rewardId metadata; tp_forgeId := "" |} in
        '(properties, metadata) ← forgeIdPass net uri properties metadata;
        let s := with_tokenProperties (insert tokenId properties) s in
        let metadata :=
          {| md_id := md_id metadata; md_token := md_token metadata;
             md_name := md_name metadata;
             md_description := md_description metadata;
             md_image := md_image metadata;
             md_rewardId := md_rewardId metadata;
             md_properties := Some tokenId |} in
        Some (metadata, with_tokenMetadata (insert tokenId metadata) s)
  | None => Some (metadata, with_tokenMetadata (insert tokenId metadata) s)
  end.

(** ** Creation: [handleTokenCreated] *)

(** The resolver never returns null, so the [else] branch of
    [if (metadata)] is not taken and is left out. *)
Definition handleTokenCreated (net : Net) (event : EthEvent)
    (tokenId tokenType : Z) (category subCategory : string) (s : Store)
    : option Store :=
  s ← match tokens s !! tokenId with
      | Some _ => Some s
      | None =>
          let tokenURI := try_uri net tokenId in
          '(metadata, s) ← fetchAndParseMetadata net tokenId tokenURI s;
          let metadata :=
            {| md_id := md_id metadata; md_token := tokenId;
               md_name := md_name metadata;
               md_description := md_description metadata;
               md_image := md_image metadata;
               md_rewardId := md_rewardId metadata;
               md_properties := md_properties metadata |} in
          let s := with_tokenMetadata (insert (md_id metadata) metadata) s in
          let forgeId :=
            propertiesId ← md_properties metadata;
            properties ← tokenProperties s !! propertiesId;
            Some (tp_forgeId properties) in
          Some (with_tokens
                  (insert tokenId
                     {| t_tokenId := tokenId; t_tokenType := tokenType;
                        t_category := category;
                        t_subCategory := subCategory;
                        t_soulbound := false; t_maxSupply := 0;
                        currentSupply := 0;
                        t_creator := tx_from event;
                        t_createdAt := block_timestamp event;
                        t_createdAtBlock := block_number event;
                        t_createdTxHash := tx_hash event;
                        t_tokenURI := tokenURI;
                        t_metadata := Some (md_id metadata);
                        t_name := md_name metadata;
                        t_description := md_description metadata;
                        t_image := md_image metadata;
                        t_rewardId := md_rewardId metadata;
                        t_forgeId := forgeId |}) s)
      end;
  let creationId := tx_hash event +:+ "-" +:+ pretty (ev_logIndex event) in
  let '(creator, s) := getOrCreateUser (tx_from event) s in
  let s :=
    with_tokenCreations
      (insert creationId
         {| tc_token := tokenId; tc_tokenId := tokenId;
            tc_tokenType := tokenType; tc_category := category;
            tc_subCategory := subCategory; tc_creator := tx_from event;
            tc_timestamp := block_timestamp event;
            tc_blockNumber := block_number event;
            tc_transactionHash := tx_hash event |}) s in
  let eventId := tx_hash event +:+ "-" +:+ pretty (ev_logIndex event) in
  let s :=
    with_allEvents
      (insert eventId
         (journalRow "TokenCreated"
            ("Token created with ID: " +:+ pretty tokenId) event
            (PCreated tokenId tokenType category subCategory
               (tx_from event)))) s in
  let '(user, s) := getOrCreateUser (tx_from event) s in
  let s :=
    with_users
      (insert (tx_from event)
         {| u_address := u_address user;
            totalTokensCreated := totalTokensCreated user + 1;
            totalTokensMinted := totalTokensMinted user;
            firstInteraction := firstInteraction user;
            lastInteraction := block_timestamp event;
            totalInventoryValue := totalInventoryValue user |}) s in
  let s := updateGlobalStats (block_timestamp event) true false false s in
  Some (updateDailyStats (block_timestamp event) true false s).

(** ** The event processor *)

(** One transition per event, the handler chosen by the event kind. *)
Definition applyEvent (net : Net) (e : Event) (s : Store) : option Store :=
  match e with
  | TokenCreated event tokenId tokenType category subCategory =>
      handleTokenCreated net event tokenId tokenType category subCategory s
  | TransferSingle event operator from to id value =>
      Some (handleTransferSingle event operator from to id value s)
  | TransferBatch event operator from to ids values =>
      handleTransferBatch event operator from to ids values s
  | RoleGranted event role account sender =>
      Some (handleRoleGranted event role account sender s)
  | RoleRevoked event role account sender =>
      Some (handleRoleRevoked event role account sender s)
  end.

(** The stores the handlers can produce from the empty store; each event is
    applied under its own view of the outside world. *)
Inductive reachable : Store → Prop :=
| reachable_empty : reachable emptyStore
| reachable_step net e s s' :
    reachable s → applyEvent net e s = Some s' → reachable s'.

(** Applying a sequence of events in order. *)
Fixpoint applyEvents (net : Net) (es : list Event) (s : Store)
    : option Store :=
  match es with
  | [] => Some s
  | e :: es => s ← applyEvent net e s; applyEvents net es s
  end.

(** * The local indexer: chunked backfill and event ordering
      ([fetchRealData]) *)

(** An event log as [contract.queryFilter] of ethers 6 returns it (the
    version whose [ethers.JsonRpcProvider] the program constructs), with the
    fields the program reads.  [index] is the position of the log in its
    block.  [logIndex] is the property of that name the comparator and the
    journal read: a log of ethers 6 does not have it ([None]); an object
    that carries it has [Some]. *)
Record RawEvent := {
  eventName : string;
  blockNumber : Z;
  index : Z;
  logIndex : option Z;
  transactionHash : string
}.

Definition maxBlockRange : Z := 45000.
Definition maxRetries : nat := 3.
Definition providerCount : nat := 3.

(** [switchProvider] *)
Definition switchProvider (currentProviderIndex : nat) : nat :=
  ((currentProviderIndex + 1) `mod` providerCount)%nat.

(** The [while (currentFromBlock < currentBlock)] loop of
    [getEventsWithRetryInChunks], with the work done on one sub-range left
    as [body]. *)
Equations? chunkLoop {A : Type} (body : Z → Z → A → A)
    (currentFromBlock currentBlock : Z) (acc : A) : A
    by wf (Z.to_nat (currentBlock - currentFromBlock)) lt :=
  chunkLoop body currentFromBlock currentBlock acc
    with decide (currentFromBlock < currentBlock) => {
    | left _ :=
        chunkLoop body
          (Z.min (currentFromBlock + maxBlockRange) currentBlock + 1)
          currentBlock
          (body currentFromBlock
             (Z.min (currentFromBlock + maxBlockRange) currentBlock) acc);
    | right _ := acc }.
Proof. unfold maxBlockRange. lia. Qed.

(** The sub-ranges [currentFromBlock, currentToBlock] the loop queries, in
    the order it queries them. *)
Definition issuedRanges (fromBlock currentBlock : Z) : list (Z * Z) :=
  chunkLoop (λ currentFromBlock currentToBlock acc,
               (acc ++ [(currentFromBlock, currentToBlock)])%list)
    fromBlock currentBlock [].

Section Backfill.
(** [contract.queryFilter] against one provider; [None] is a thrown RPC
    error. *)
Variable queryFilter : nat → string → Z → Z → option (list RawEvent).

(** The inner [while (retries < maxRetries)] loop: [budget] is
    [maxRetries - retries]. *)
Fixpoint queryWithRetry (budget : nat) (eventName : string)
    (currentFromBlock currentToBlock : Z) (currentProviderIndex : nat)
    : list RawEvent * nat :=
  match budget with
  | O => ([], currentProviderIndex)
  | S budget =>
      match queryFilter currentProviderIndex eventName
              currentFromBlock currentToBlock with
      | Some chunkEvents => (chunkEvents, currentProviderIndex)
      | None =>
          match budget with
          | O => ([], currentProviderIndex)
          | S _ =>
              queryWithRetry budget eventName currentFromBlock
                currentToBlock (switchProvider currentProviderIndex)
          end
      end
  end.

(** [allEvents.push(...chunkEvents.map(event => ({ ...event, eventName })))]
    stamps every event with the name the caller asked for. *)
Definition getEventsWithRetryInChunks (eventName : string)
    (fromBlock currentBlock : Z) (currentProviderIndex : nat)
    : list RawEvent * nat :=
  chunkLoop
    (λ currentFromBlock currentToBlock '(allEvents, provider),
       let '(chunkEvents, provider) :=
         queryWithRetry maxRetries eventName currentFromBlock
           currentToBlock provider in
       ((allEvents
         ++ map (λ event, {| eventName := eventName;
                             blockNumber := blockNumber event;
                             index := index event;
                             logIndex := logIndex event;
                             transactionHash := transactionHash event |})
              chunkEvents)%list, provider))
    fromBlock currentBlock ([], currentProviderIndex).
End Backfill.

(** ** Event ordering *)

Record EventResults := {
  tokenCreated : list RawEvent;
  tokenMinted : list RawEvent;
  transferSingle : list RawEvent;
  transferBatch : list RawEvent;
  roleGranted : list RawEvent;
  roleRevoked : list RawEvent
}.

(** [a.logIndex || 0]: 0 for an event without the property, as the logs of
    ethers 6 are. *)
Definition logIndexOr0 (a : RawEvent) : Z := default 0 (logIndex a).

(** The comparator handed to [sort]. *)
Definition compareEvents (a b : RawEvent) : Z :=
  if decide (blockNumber a ≠ blockNumber b)
  then blockNumber a - blockNumber b
  else logIndexOr0 a - logIndexOr0 b.

(** [Array.prototype.sort] is a stable sort by the comparator: an element
    goes in front of the first element of the sorted rest that it does not
    follow. *)
Fixpoint insertBy {A : Type} (cmp : A → A → Z) (x : A) (l : list A)
    : list A :=
  match l with
  | [] => [x]
  | y :: l' => if decide (cmp x y ≤ 0) then x :: l else y :: insertBy cmp x l'
  end.

Definition sortBy {A : Type} (cmp : A → A → Z) (l : list A) : list A :=
  foldr (insertBy cmp) [] l.

(** The lists that are merged ([tokenMinted] is fetched but not part of the
    merge). *)
Definition combined (r : EventResults) : list RawEvent :=
  (tokenCreated r ++ transferSingle r ++ transferBatch r
   ++ roleGranted r ++ roleRevoked r)%list.

Definition orderEvents (r : EventResults) : list RawEvent :=
  sortBy compareEvents (combined r).

(** * The metadata data source ([src/metadata-mapping.ts]) *)

(** [handleMetadataRequested], in the version that first looks for the
    metadata of the token; its resolver has the text of the one above.
    [try_tokenURI] is the contract call the handler makes. *)
Definition handleMetadataRequested (net : Net)
    (try_tokenURI : Z → option string) (tokenId : Z) (s : Store)
    : option Store :=
  match tokens s !! tokenId with
  | None => Some s
  | Some token =>
      match tokenMetadata s !! tokenId with
      | Some _ => Some s
      | None =>
          let tokenURI := try_tokenURI tokenId in
          '(metadata, s) ← fetchAndParseMetadata net tokenId tokenURI s;
          let metadata :=
            {| md_id := md_id metadata; md_token := tokenId;
               md_name := md_name metadata;
               md_description := md_description metadata;
               md_image := md_image metadata;
               md_rewardId := md_rewardId metadata;
               md_properties := md_properties metadata |} in
          let s := with_tokenMetadata (insert (md_id metadata) metadata) s in
          let forgeId :=
            match md_properties metadata with
            | Some propertiesId =>
                match tokenProperties s !! propertiesId with
                | Some properties => Some (tp_forgeId properties)
                | None => t_forgeId token
                end
            | None => t_forgeId token
            end in
          Some (with_tokens
                  (insert tokenId
                     {| t_tokenId := t_tokenId token;
                        t_tokenType := t_tokenType token;
                        t_category := t_category token;
                        t_subCategory := t_subCategory token;
                        t_soulbound := t_soulbound token;
                        t_maxSupply := t_maxSupply token;
                        currentSupply := currentSupply token;
                        t_creator := t_creator token;
                        t_createdAt := t_createdAt token;
                        t_createdAtBlock := t_createdAtBlock token;
                        t_createdTxHash := t_createdTxHash token;
                        t_tokenURI := t_tokenURI token;
                        t_metadata := Some (md_id metadata);
                        t_name := md_name metadata;
                        t_description := md_description metadata;
                        t_image := md_image metadata;
                        t_rewardId := md_rewardId metadata;
                        t_forgeId := forgeId |}) s)
      end
  end.

(** * The metadata fetcher class ([MetadataFetcher]) *)

(** The class takes the token id as text.  As everywhere in the mapping the
    text is the decimal rendering of a token id, so the entities stay keyed
    by the number, and the text is [pretty tokenId] where the class reads
    it. *)

(** [properties.save(); metadata.properties = properties.id;
    metadata.save()], the tail of every constructor of the class. *)
Definition saveWithProperties (tokenId : Z) (metadata : TokenMetadata)
    (forgeId : string) (s : Store) : TokenMetadata * Store :=
  let properties :=
    {| tp_metadata := tokenId; tp_badgeType := ""; tp_createdBy := "";
       tp_rewardId := md_rewardId metadata; tp_forgeId := forgeId |} in
  let s := with_tokenProperties (insert tokenId properties) s in
  let metadata :=
    {| md_id := md_id metadata; md_token := md_token metadata;
       md_name := md_name metadata;
       md_description := md_description metadata;
       md_image := md_image metadata; md_rewardId := md_rewardId metadata;
       md_properties := Some tokenId |} in
  (metadata, with_tokenMetadata (insert tokenId metadata) s).

Definition createDefaultMetadata (tokenId : Z) (s : Store)
    : TokenMetadata * Store :=
  saveWithProperties tokenId (defaultMetadata tokenId) "" s.

Definition createPlaceholderMetadata (tokenId : Z) (s : Store)
    : TokenMetadata * Store :=
  let '(name, description, rewardId) :=
    if decide (pretty tokenId = "1")
    then ("The Forge Badge", "A badge earned in The Forge", "forge-badge-1")
    else if decide (pretty tokenId = "2")
    then ("Slicer Achievement", "Achievement for completing slicing tasks",
          "slicer-achievement-1")
    else ("Token " +:+ pretty tokenId,
          "Description for token " +:+ pretty tokenId, "") in
  saveWithProperties tokenId
    {| md_id := tokenId; md_token := tokenId; md_name := name;
       md_description := description; md_image := ""; md_rewardId := rewardId;
       md_properties := None |} "" s.

(** [field ? field.toString() : fallback] *)
Definition stringOr (field : option JSONValue) (fallback : string)
    : option string :=
  match field with
  | Some v => toString v
  | None => Some fallback
  end.

Definition parseMetadataObject (tokenId : Z)
    (metadataObj : list (string * JSONValue)) (s : Store)
    : option (TokenMetadata * Store) :=
  name ← stringOr (get "name" metadataObj) ("Token " +:+ pretty tokenId);
  description ← stringOr (get "description" metadataObj)
                  ("Description for token " +:+ pretty tokenId);
  image ← stringOr (get "image" metadataObj) "";
  rewardId ← stringOr (get "rewardId" metadataObj) "";
  forgeId ← stringOr (get "forge_id" metadataObj) "";
  Some (saveWithProperties tokenId
          {| md_id := tokenId; md_token := tokenId; md_name := name;
             md_description := description; md_image := image;
             md_rewardId := rewardId; md_properties := None |} forgeId s).

Definition fetchFromIPFS (net : Net) (tokenId : Z) (tokenURI : string)
    (s : Store) : option (TokenMetadata * Store) :=
  let ipfsHash := replace "ipfs://" "" tokenURI in
  match ipfs_cat net 0 ipfsHash ≫= try_fromBytes net with
  | Some metadataJson =>
      metadataObj ← toObject metadataJson;
      parseMetadataObject tokenId metadataObj s
  | None => Some (createDefaultMetadata tokenId s)
  end.

Definition fetchFromHTTP (tokenId : Z) (tokenURI : string) (s : Store)
    : option (TokenMetadata * Store) :=
  Some (createPlaceholderMetadata tokenId s).

Definition fetchMetadata (net : Net) (tokenId : Z) (tokenURI : string)
    (s : Store) : option (TokenMetadata * Store) :=
  if startsWith tokenURI "ipfs://" then fetchFromIPFS net tokenId tokenURI s
  else if startsWith tokenURI "http" then fetchFromHTTP tokenId tokenURI s
  else Some (createDefaultMetadata tokenId s).

(** * Vocabulary of the properties *)

(** The store effect of the load-or-create half of [getOrCreateUser]. *)
Definition registerUser (address : Address) (s : Store) : Store :=
  match users s !! address with
  | Some _ => s
  | None => updateGlobalStats 0 false false true s
  end.

(** The user record [getOrCreateUser] hands back: the stored one, or a
    fresh one. *)
Definition knownUser (address : Address) (s : Store) : User :=
  default (newUser address) (users s !! address).

(** The balance update of the design (section 4.3.1), on the balance
    collection alone: new balance = current + delta with an absent record
    counting as 0; delete at zero, upsert otherwise. *)
Definition balanceUpdate (user : Address) (token delta timestamp : Z)
    (m : gmap (Address * Z) UserTokenBalance)
    : gmap (Address * Z) UserTokenBalance :=
  let current := from_option balance 0 (m !! (user, token)) in
  if decide (current + delta = 0) then delete (user, token) m
  else <[(user, token) :=
          {| b_user := from_option b_user user (m !! (user, token));
             b_token := from_option b_token token (m !! (user, token));
             balance := current + delta;
             b_lastUpdated := timestamp |}]> m.

(** The token collection after the mint sub-transition. *)
Definition mintSupply (tokenId amount : Z) (m : gmap Z Token) : gmap Z Token :=
  match m !! tokenId with
  | Some t =>
      <[tokenId :=
          {| t_tokenId := t_tokenId t; t_tokenType := t_tokenType t;
             t_category := t_category t; t_subCategory := t_subCategory t;
             t_soulbound := t_soulbound t; t_maxSupply := t_maxSupply t;
             currentSupply := currentSupply t + amount;
             t_creator := t_creator t; t_createdAt := t_createdAt t;
             t_createdAtBlock := t_createdAtBlock t;
             t_createdTxHash := t_createdTxHash t;
             t_tokenURI := t_tokenURI t; t_metadata := t_metadata t;
             t_name := t_name t; t_description := t_description t;
             t_image := t_image t; t_rewardId := t_rewardId t;
             t_forgeId := t_forgeId t |}]> m
  | None => m
  end.

(** Everything the metadata resolver leaves alone. *)
Definition sameLedger (s s' : Store) : Prop :=
  tokens s' = tokens s ∧ balances s' = balances s ∧ users s' = users s
  ∧ globalStats s' = globalStats s ∧ dailyStats s' = dailyStats s
  ∧ allEvents s' = allEvents s ∧ tokenCreations s' = tokenCreations s
  ∧ inventory s' = inventory s ∧ tokenMints s' = tokenMints s
  ∧ roleChanges s' = roleChanges s.

Definition noZeroBalance (m : gmap (Address * Z) UserTokenBalance) : Prop :=
  ∀ k b, m !! k = Some b → balance b ≠ 0.

(** [sum(UserTokenBalance.balance for that token)]: the records are selected
    by their [token] field. *)
Definition balanceSum (token : Z) (m : gmap (Address * Z) UserTokenBalance)
    : Z :=
  map_fold (λ _ b acc, if decide (b_token b = token) then balance b + acc
                       else acc) 0 m.





(** A mint (a transfer from the zero address) refers to a token whose Token
    entity is already in the store. *)
Definition mintsKnown (s : Store) (e : Event) : bool :=
  match e with
  | TransferSingle _ _ from _ id _ =>
      if decide (from = ZERO_ADDRESS)
      then bool_decide (is_Some (tokens s !! id)) else true
  | TransferBatch _ _ from _ ids _ =>
      if decide (from = ZERO_ADDRESS)
      then forallb (λ id, bool_decide (is_Some (tokens s !! id))) ids
      else true
  | _ => true
  end.

(** The stores reached by event sequences in which every mint is of a known
    token. *)
Inductive reachableKnown : Store → Prop :=
| reachableKnown_empty : reachableKnown emptyStore
| reachableKnown_step net e s s' :
    reachableKnown s → mintsKnown s e = true →
    applyEvent net e s = Some s' → reachableKnown s'.

Definition isSomeb {A : Type} (o : option A) : bool :=
  match o with Some _ => true | None => false end.

(** Applying a sequence while checking that every mint is of a known
    token. *)
Fixpoint applyKnownEvents (net : Net) (es : list Event) (s : Store)
    : option Store :=
  match es with
  | [] => Some s
  | e :: es =>
      if mintsKnown s e
      then s ← applyEvent net e s; applyKnownEvents net es s
      else None
  end.

Definition statsOf (s : Store) : GlobalStats :=
  default newGlobalStats (globalStats s).



(** Every count of an event is matched by a count of a token, a mint or a
    user. *)
Definition tallied (s : Store) : Prop :=
  totalEvents (statsOf s)
  = totalTokens (statsOf s) + totalMints (statsOf s) + totalUsers (statsOf s).

(** Exactly one of the three flags is set. *)
Definition oneFlag (incTokens incMints incUsers : bool) : bool :=
  match incTokens, incMints, incUsers with
  | true, false, false | false, true, false | false, false, true => true
  | _, _, _ => false
  end.

(** The order the comparator decides: block number first, then the
    [logIndex] property, or 0 where an event has none. *)
Definition inOrder (a b : RawEvent) : Prop :=
  blockNumber a < blockNumber b
  ∨ (blockNumber a = blockNumber b ∧ logIndexOr0 a ≤ logIndexOr0 b).

Definition keyOf (a : RawEvent) : Z * Z := (blockNumber a, logIndexOr0 a).

(** The order of the chain: block number first, position in the block
    second. *)
Definition chainOrder (a b : RawEvent) : Prop :=
  blockNumber a < blockNumber b
  ∨ (blockNumber a = blockNumber b ∧ index a ≤ index b).


(** A block lies in a sub-range (both ends are queried). *)
Definition covers (block : Z) (range : Z * Z) : Prop :=
  range.1 ≤ block ≤ range.2.

#[local] Instance covers_dec block range : Decision (covers block range).
Proof. unfold covers. apply _. Defined.

(** In how many of the sub-ranges a block lies. *)
Definition timesCovered (block : Z) (ranges : list (Z * Z)) : nat :=
  length (filter (covers block) ranges).

(** Each sub-range starts where the one before it ended, plus one. *)
Fixpoint chained (start : Z) (ranges : list (Z * Z)) : Prop :=
  match ranges with
  | [] => True
  | (f, t) :: ranges => f = start ∧ chained (t + 1) ranges
  end.

(** ** The writes of the handlers and what they preserve *)

(** A Token with its supply replaced. *)
Definition withSupply (supply : Z) (t : Token) : Token :=
  {| t_tokenId := t_tokenId t; t_tokenType := t_tokenType t;
     t_category := t_category t; t_subCategory := t_subCategory t;
     t_soulbound := t_soulbound t; t_maxSupply := t_maxSupply t;
     currentSupply := supply;
     t_creator := t_creator t; t_createdAt := t_createdAt t;
     t_createdAtBlock := t_createdAtBlock t;
     t_createdTxHash := t_createdTxHash t;
     t_tokenURI := t_tokenURI t; t_metadata := t_metadata t;
     t_name := t_name t; t_description := t_description t;
     t_image := t_image t; t_rewardId := t_rewardId t;
     t_forgeId := t_forgeId t |}.

(** The fields a Token copies from its metadata record. *)
Definition mirrors (t : Token) (metadata : TokenMetadata) : Prop :=
  md_token metadata = t_tokenId t ∧ t_name t = md_name metadata
  ∧ t_description t = md_description metadata
  ∧ t_image t = md_image metadata ∧ t_rewardId t = md_rewardId metadata.

(** One write of a handler to the store: the kinds of write the handlers
    of [mapping.ts] are made of. *)
Inductive step : Store → Store → Prop :=
| step_metadata s s' :
    sameLedger s s' →
    (∀ id, is_Some (tokens s !! id) →
           tokenMetadata s' !! id = tokenMetadata s !! id) →
    step s s'
| step_register address s :
    step s (with_users (insert address (knownUser address s))
              (registerUser address s))
| step_saveUser address k u s :
    users s !! address = Some k →
    u_address u = u_address k →
    firstInteraction u = firstInteraction k →
    totalInventoryValue u = totalInventoryValue k →
    step s (with_users (insert address u) s)
| step_balance address tokenId amount timestamp s :
    step s (updateUserBalance address tokenId amount timestamp s)
| step_stats timestamp incTokens incMints s :
    xorb incTokens incMints = true →
    step s (updateGlobalStats timestamp incTokens incMints false s)
| step_daily timestamp incTokens incMints s :
    xorb incTokens incMints = true →
    step s (updateDailyStats timestamp incTokens incMints s)
| step_newToken tokenId t s :
    tokens s !! tokenId = None →
    currentSupply t = 0 → t_tokenId t = tokenId →
    t_metadata t = Some tokenId →
    (∃ metadata, tokenMetadata s !! tokenId = Some metadata
                 ∧ mirrors t metadata) →
    step s (with_tokens (insert tokenId t) s)
| step_supply tokenId t amount s :
    tokens s !! tokenId = Some t →
    step s (with_tokens
              (insert tokenId (withSupply (currentSupply t + amount) t)) s)
| step_inventory key item s :
    (∀ old, inventory s !! key = Some old →
            ii_firstAcquired item = ii_firstAcquired old) →
    step s (with_inventory (insert key item) s)
| step_tokenMint f s : step s (with_tokenMints f s)
| step_creation f s : step s (with_tokenCreations f s)
| step_roleChange f s : step s (with_roleChanges f s)
| step_journal f s : step s (with_allEvents f s).

(** The user counter counts the User records. *)
Definition usersCounted (s : Store) : Prop :=
  totalUsers (statsOf s) = Z.of_nat (size (users s)).

(** A User sits under its own address and has no first interaction. *)
Definition usersKeyed (s : Store) : Prop :=
  ∀ a u, users s !! a = Some u → u_address u = a ∧ firstInteraction u = 0.

(** The balances of the records of one user, added up; the records are
    selected by their [user] field. *)
Definition userSum (user : Address)
    (m : gmap (Address * Z) UserTokenBalance) : Z :=
  map_fold (λ _ b acc, if decide (b_user b = user) then balance b + acc
                       else acc) 0 m.

Definition userShare (user : Address) (b : UserTokenBalance) : Z :=
  if decide (b_user b = user) then balance b else 0.

(** Every record sits under the key of its own user. *)
Definition userKeyed (m : gmap (Address * Z) UserTokenBalance) : Prop :=
  ∀ user token b, m !! (user, token) = Some b → b_user b = user.

(** The running inventory value of every user is the sum of the balances
    of the user. *)
Definition valueTallied (s : Store) : Prop :=
  userKeyed (balances s)
  ∧ ∀ a, userSum a (balances s)
         = from_option totalInventoryValue 0 (users s !! a).

(** A bucket sits under its own day, and its active-user counter is the
    number of creations and mints of the day. *)
Definition dailyTallied (s : Store) : Prop :=
  ∀ d r, dailyStats s !! d = Some r →
         ds_date r = d ∧ activeUsers r = tokensCreated r + tokensMinted r.

(** A Token sits under its own id and points to a metadata record of the
    same id, which exists. *)
Definition tokensLinked (s : Store) : Prop :=
  ∀ id t, tokens s !! id = Some t →
          t_tokenId t = id ∧ t_metadata t = Some id
          ∧ ∃ metadata, tokenMetadata s !! id = Some metadata
                        ∧ mirrors t metadata.

(** From one store to a later one: Users, Tokens and inventory items stay,
    a User keeps its address, a Token everything but its supply, an
    inventory item the time it was first acquired. *)
Definition persists (s s' : Store) : Prop :=
  (∀ a u, users s !! a = Some u →
          ∃ u', users s' !! a = Some u' ∧ u_address u' = u_address u)
  ∧ (∀ id t, tokens s !! id = Some t →
             ∃ supply, tokens s' !! id = Some (withSupply supply t))
  ∧ (∀ k item, inventory s !! k = Some item →
               ∃ item', inventory s' !! k = Some item'
                        ∧ ii_firstAcquired item' = ii_firstAcquired item).

(** Two stores that differ at most in the journal. *)
Definition sameButJournal (s s' : Store) : Prop :=
  tokens s' = tokens s ∧ tokenMetadata s' = tokenMetadata s
  ∧ tokenProperties s' = tokenProperties s
  ∧ tokenAttributes s' = tokenAttributes s
  ∧ tokenCreations s' = tokenCreations s ∧ tokenMints s' = tokenMints s
  ∧ users s' = users s ∧ balances s' = balances s
  ∧ inventory s' = inventory s ∧ roleChanges s' = roleChanges s
  ∧ globalStats s' = globalStats s ∧ dailyStats s' = dailyStats s.

(** The number of units of a token an address holds according to the
    balance records. *)
Definition held (s : Store) (address : Address) (tokenId : Z) : Z :=
  from_option balance 0 (balances s !! (address, tokenId)).

(** The supply fields of the statistics hold their initial 0. *)
Definition supplyIdle (s : Store) : Prop :=
  totalSupply (statsOf s) = 0
  ∧ ∀ d r, dailyStats s !! d = Some r → totalSupplyChange r = 0.

(** The attribute the loop of the resolver stores for one entry of the
    [attributes] array: none for an entry without a trait type or a
    value. *)
Definition attributeAt (tokenId : Z) (attr : JSONValue)
    : option TokenAttribute :=
  match attr with
  | JObject attrObj =>
      match get "trait_type" attrObj, get "value" attrObj with
      | Some (JString traitType), Some (JString value) =>
          Some {| ta_metadata := tokenId; ta_traitType := traitType;
                  ta_value := value |}
      | _, _ => None
      end
  | _ => None
  end.

(** An event as the backfill hands it on: stamped with the name that was
    asked for. *)
Definition named (name : string) (event : RawEvent) : RawEvent :=
  {| eventName := name; blockNumber := blockNumber event;
     index := index event; logIndex := logIndex event;
     transactionHash := transactionHash event |}.

(** What an event adds to the token counter and to the mint counter. *)
Definition creationsOf (e : Event) : Z :=
  match e with TokenCreated _ _ _ _ _ => 1 | _ => 0 end.

Definition mintsOf (e : Event) : Z :=
  match e with
  | TransferSingle _ _ from _ _ _ =>
      if decide (from = ZERO_ADDRESS) then 1 else 0
  | TransferBatch _ _ from _ ids _ =>
      if decide (from = ZERO_ADDRESS) then Z.of_nat (length ids) else 0
  | _ => 0
  end.

(** The number of User records that came into being between two stores. *)
Definition usersCreated (s s' : Store) : Z :=
  Z.of_nat (size (users s')) - Z.of_nat (size (users s)).

(** The token and the mint counter of [s] are those of [s0] plus the given
    amounts. *)
Definition counted (tokensAdded mintsAdded : Z) (s0 s : Store) : Prop :=
  totalTokens (statsOf s) = totalTokens (statsOf s0) + tokensAdded
  ∧ totalMints (statsOf s) = totalMints (statsOf s0) + mintsAdded.

(** The user counter is the number of User records plus [c], and the
    total-event counter the sum of the other three plus [d]. *)
Definition countersOffset (c d : Z) (s : Store) : Prop :=
  totalUsers (statsOf s) = Z.of_nat (size (users s)) + c
  ∧ totalEvents (statsOf s)
    = totalTokens (statsOf s) + totalMints (statsOf s)
      + totalUsers (statsOf s) + d.

(** * Scenarios *)

(** A world in which nothing outside the store answers. *)
Definition offline : Net :=
  {| try_uri := λ _, None; http_get := λ _ _, None; ipfs_cat := λ _ _, None;
     try_fromBytes := λ _, None |}.

Definition alice : Address := "0x00000000000000000000000000000000000000a1".
Definition bob : Address := "0x00000000000000000000000000000000000000b2".

Definition eventAt (blockNumber logIndex : Z) (sender : Address) : EthEvent :=
  {| ev_address := "0xd21c2b389073cc05251d3afc0b41674bf05c62e9";
     ev_logIndex := logIndex; block_number := blockNumber;
     block_hash := "0xb10c"; block_timestamp := 1700000000 + blockNumber;
     tx_hash := "0x7a" +:+ pretty blockNumber; tx_index := 0;
     tx_from := sender; tx_to := None; tx_value := 0; tx_gasPrice := 1 |}.

Definition create42 : Event :=
  TokenCreated (eventAt 1 0 alice) 42 1 "Gear" "Helm".
Definition mint42 : Event :=
  TransferSingle (eventAt 2 0 alice) alice ZERO_ADDRESS alice 42 5.
Definition move42 : Event :=
  TransferSingle (eventAt 3 0 alice) alice alice bob 42 3.

(** Token 42 created, 5 units minted to alice, 3 of them moved to bob. *)
Definition ledgerStore : Store :=
  default emptyStore
    (applyKnownEvents offline [create42; mint42; move42] emptyStore).



(** A world whose IPFS node serves a page that is not JSON. *)
Definition garbled : Net :=
  {| try_uri := λ _, Some "ipfs://QmForge/42.json";
     http_get := λ _ _, None;
     ipfs_cat := λ _ hash,
       if decide (hash = "QmForge") then Some "<html>gateway error</html>"
       else None;
     try_fromBytes := λ _, None |}.

(** A world whose HTTP server answers with a JSON document. *)
Definition served : Net :=
  {| try_uri := λ _, Some "https://forge.example/42.json";
     http_get := λ _ _, Some {| status := 200; body := "{...}" |};
     ipfs_cat := λ _ _, None;
     try_fromBytes := λ _,
       Some (JObject [("name", JString "Iron Helm");
                      ("forge_id", JString "F-7");
                      ("attributes",
                       JArray [JObject [("trait_type", JString "Tier");
                                        ("value", JString "3")];
                               JObject [("value", JString "orphan")]])]) |}.

(** A log as ethers 6 returns it: at position [position] of block
    [block], with no [logIndex] property. *)
Definition logAt (name : string) (block position : Z) : RawEvent :=
  {| eventName := name; blockNumber := block; index := position;
     logIndex := None; transactionHash := "0x7a" +:+ pretty block |}.

(** Four logs of block 100: a creation at position 7, a mint event at
    position 3, and two single transfers at positions 2 and 5. *)
Definition fetchedLogs : EventResults :=
  {| tokenCreated := [logAt "TokenCreated" 100 7];
     tokenMinted := [logAt "TokenMinted" 100 3];
     transferSingle := [logAt "TransferSingle" 100 2;
                        logAt "TransferSingle" 100 5];
     transferBatch := []; roleGranted := []; roleRevoked := [] |}.

Definition grantBob (block : Z) : Event :=
  RoleGranted (eventAt block 0 alice) MINTER_ROLE bob alice.

(** The store after a first role grant to bob. *)
Definition grantedStore : Store :=
  handleRoleGranted (eventAt 6 0 alice) MINTER_ROLE bob alice emptyStore.

Definition batchMint : Event :=
  TransferBatch (eventAt 8 0 alice) alice ZERO_ADDRESS bob [1; 2] [10; 20].


(** The store after the creation of token 42. *)
Definition createdStore : Store :=
  default emptyStore (applyEvent offline create42 emptyStore).

Definition token42 : Token :=
  {| t_tokenId := 42; t_tokenType := 1; t_category := "Gear";
     t_subCategory := "Helm"; t_soulbound := false; t_maxSupply := 0;
     currentSupply := 0; t_creator := alice; t_createdAt := 1700000001;
     t_createdAtBlock := 1; t_createdTxHash := "0x7a1"; t_tokenURI := None;
     t_metadata := Some 42; t_name := "Token 42";
     t_description := "Description for token 42"; t_image := "";
     t_rewardId := ""; t_forgeId := None |}.

(** Token 42 created, minted and moved, a role granted to bob, and a batch
    mint of tokens 1 and 2 that have no Token. *)
Definition busyStore : Store :=
  default emptyStore
    (applyEvents offline [create42; mint42; move42; grantBob 4; batchMint]
       emptyStore).

(** A world whose IPFS node serves a JSON document that is a list. *)
Definition listed : Net :=
  {| try_uri := λ _, Some "ipfs://QmForge/42.json";
     http_get := λ _ _, None;
     ipfs_cat := λ _ _, Some "[1, 2]";
     try_fromBytes := λ _, Some (JArray [JNumber "1"; JNumber "2"]) |}.

(** A world whose HTTP server answers with a JSON object whose name is a
    number. *)
Definition numbered : Net :=
  {| try_uri := λ _, Some "https://forge.example/42.json";
     http_get := λ _ _, Some {| status := 200; body := "{...}" |};
     ipfs_cat := λ _ _, None;
     try_fromBytes := λ _, Some (JObject [("name", JNumber "7")]) |}.

(** * Properties *)

(** ** The store through the helper functions *)

(** Resetting a zero [firstInteraction] to zero changes nothing. *)
Lemma firstInteraction_reset user :
  (if decide (firstInteraction user = 0)
   then {| u_address := u_address user;
           totalTokensCreated := totalTokensCreated user;
           totalTokensMinted := totalTokensMinted user;
           firstInteraction := 0;
           lastInteraction := lastInteraction user;
           totalInventoryValue := totalInventoryValue user |}
   else user) = user.
Proof. destruct user; simpl. case_decide; by subst. Qed.

Lemma getOrCreateUser_eq (address : Address) (s : Store) :
  getOrCreateUser address s
  = (knownUser address s,
     with_users (insert address (knownUser address s))
       (registerUser address s)).
Proof.
  unfold getOrCreateUser, registerUser, knownUser.
  destruct (users s !! address) as [user|]; cbn beta iota;
    by rewrite firstInteraction_reset.
Qed.

(** Replace the calls of [getOrCreateUser] in the goal by their result. *)
Ltac step_user := rewrite getOrCreateUser_eq; cbn beta iota.

Lemma registerUser_frame address s :
  tokens (registerUser address s) = tokens s
  ∧ balances (registerUser address s) = balances s
  ∧ allEvents (registerUser address s) = allEvents s
  ∧ tokenCreations (registerUser address s) = tokenCreations s
  ∧ tokenMetadata (registerUser address s) = tokenMetadata s
  ∧ dailyStats (registerUser address s) = dailyStats s
  ∧ inventory (registerUser address s) = inventory s
  ∧ users (registerUser address s) = users s
  ∧ tokenProperties (registerUser address s) = tokenProperties s
  ∧ tokenAttributes (registerUser address s) = tokenAttributes s
  ∧ tokenMints (registerUser address s) = tokenMints s
  ∧ roleChanges (registerUser address s) = roleChanges s.
Proof. unfold registerUser. by destruct (users s !! address). Qed.

Lemma tokens_registerUser a s : tokens (registerUser a s) = tokens s.
Proof. apply registerUser_frame. Qed.
Lemma balances_registerUser a s : balances (registerUser a s) = balances s.
Proof. apply registerUser_frame. Qed.
Lemma allEvents_registerUser a s : allEvents (registerUser a s) = allEvents s.
Proof. apply registerUser_frame. Qed.
Lemma tokenCreations_registerUser a s :
  tokenCreations (registerUser a s) = tokenCreations s.
Proof. apply registerUser_frame. Qed.
Lemma tokenMetadata_registerUser a s :
  tokenMetadata (registerUser a s) = tokenMetadata s.
Proof. apply registerUser_frame. Qed.
Lemma dailyStats_registerUser a s :
  dailyStats (registerUser a s) = dailyStats s.
Proof. apply registerUser_frame. Qed.
Lemma inventory_registerUser a s : inventory (registerUser a s) = inventory s.
Proof. apply registerUser_frame. Qed.
Lemma users_registerUser a s : users (registerUser a s) = users s.
Proof. apply registerUser_frame. Qed.
Lemma tokenProperties_registerUser a s :
  tokenProperties (registerUser a s) = tokenProperties s.
Proof. apply registerUser_frame. Qed.
Lemma tokenAttributes_registerUser a s :
  tokenAttributes (registerUser a s) = tokenAttributes s.
Proof. apply registerUser_frame. Qed.

Lemma tokenMints_registerUser a s :
  tokenMints (registerUser a s) = tokenMints s.
Proof. apply registerUser_frame. Qed.

Create Rewrite HintDb store.
#[local] Hint Rewrite tokens_registerUser balances_registerUser
  allEvents_registerUser tokenCreations_registerUser
  tokenMetadata_registerUser dailyStats_registerUser inventory_registerUser
  users_registerUser tokenProperties_registerUser
  tokenAttributes_registerUser tokenMints_registerUser : store.

(** Projections through the store updates, by computation. *)
Ltac store_cbn :=
  cbn [tokens tokenMetadata tokenProperties tokenAttributes tokenCreations
       tokenMints users balances inventory roleChanges globalStats
       dailyStats allEvents with_tokens with_tokenMetadata
       with_tokenProperties with_tokenAttributes with_tokenCreations
       with_tokenMints with_users with_balances with_inventory
       with_roleChanges with_globalStats with_dailyStats with_allEvents
       updateDailyStats fst snd].

Ltac store_simpl :=
  repeat progress
    (cbn [tokens tokenMetadata tokenProperties tokenAttributes tokenCreations
          tokenMints users balances inventory roleChanges globalStats
          dailyStats allEvents with_tokens with_tokenMetadata
          with_tokenProperties with_tokenAttributes with_tokenCreations
          with_tokenMints with_users with_balances with_inventory
          with_roleChanges with_globalStats with_dailyStats with_allEvents
          updateGlobalStats updateDailyStats fst snd];
     autorewrite with store).

Lemma balances_updateUserBalance address tokenId amount timestamp s :
  balances (updateUserBalance address tokenId amount timestamp s)
  = balanceUpdate address tokenId amount timestamp (balances s).
Proof.
  unfold updateUserBalance, balanceUpdate.
  destruct (balances s !! (address, tokenId)) as [b|]; simpl;
    case_decide; step_user; by store_simpl.
Qed.

Lemma updateUserBalance_frame address tokenId amount timestamp s :
  tokens (updateUserBalance address tokenId amount timestamp s) = tokens s
  ∧ allEvents (updateUserBalance address tokenId amount timestamp s)
    = allEvents s
  ∧ inventory (updateUserBalance address tokenId amount timestamp s)
    = inventory s
  ∧ dailyStats (updateUserBalance address tokenId amount timestamp s)
    = dailyStats s
  ∧ tokenMints (updateUserBalance address tokenId amount timestamp s)
    = tokenMints s.
Proof.
  unfold updateUserBalance.
  destruct (balances s !! (address, tokenId)) as [b|]; simpl;
    case_decide; step_user; by store_simpl.
Qed.

Lemma tokens_updateUserBalance a t v ts s :
  tokens (updateUserBalance a t v ts s) = tokens s.
Proof. apply updateUserBalance_frame. Qed.
Lemma allEvents_updateUserBalance a t v ts s :
  allEvents (updateUserBalance a t v ts s) = allEvents s.
Proof. apply updateUserBalance_frame. Qed.
Lemma inventory_updateUserBalance a t v ts s :
  inventory (updateUserBalance a t v ts s) = inventory s.
Proof. apply updateUserBalance_frame. Qed.

Lemma tokenMints_updateUserBalance a t v ts s :
  tokenMints (updateUserBalance a t v ts s) = tokenMints s.
Proof. apply updateUserBalance_frame. Qed.

#[local] Hint Rewrite balances_updateUserBalance tokens_updateUserBalance
  allEvents_updateUserBalance inventory_updateUserBalance
  tokenMints_updateUserBalance : store.

Lemma handleTokenMint_frame to tokenId amount operator event s :
  tokens (handleTokenMint to tokenId amount operator event s)
  = mintSupply tokenId amount (tokens s)
  ∧ balances (handleTokenMint to tokenId amount operator event s)
    = balanceUpdate to tokenId amount (block_timestamp event) (balances s)
  ∧ allEvents (handleTokenMint to tokenId amount operator event s)
    = <[eventIdOf event :=
          journalRow "TokenMint" ("Mint of token ID: " +:+ pretty tokenId)
            event (PMint to amount operator tokenId)]> (allEvents s).
Proof.
  unfold handleTokenMint, mintSupply, eventIdOf. step_user. store_simpl.
  destruct (tokens s !! tokenId) as [t|]; store_simpl.
  all: destruct (inventory s !! (to, tokenId)); repeat step_user;
    by store_simpl.
Qed.

Lemma sameLedger_refl s : sameLedger s s.
Proof. by repeat split. Qed.

Lemma sameLedger_trans s1 s2 s3 :
  sameLedger s1 s2 → sameLedger s2 s3 → sameLedger s1 s3.
Proof. unfold sameLedger. intros. destruct_and!. repeat split; congruence. Qed.

Lemma saveAttributes_ledger tokenId attrArray : ∀ i s s',
  saveAttributes tokenId i attrArray s = Some s' → sameLedger s s'.
Proof.
  induction attrArray as [|attr attrArray IH]; intros i s s' H; simpl in H.
  - injection H as <-. apply sameLedger_refl.
  - destruct (toObject attr) as [attrObj|]; [simpl in H|done].
    destruct (get "trait_type" attrObj) as [traitType|],
      (get "value" attrObj) as [value|]; simpl in H;
      try (by eapply IH).
    destruct (toString traitType) as [tt|]; [simpl in H|done].
    destruct (toString value) as [v|]; [simpl in H|done].
    eapply sameLedger_trans; [|by eapply IH]. by repeat split.
Qed.

Lemma applyMetadataJson_ledger tokenId metadataJson metadata s metadata' s' :
  applyMetadataJson tokenId metadataJson metadata s = Some (metadata', s') →
  sameLedger s s'.
Proof.
  unfold applyMetadataJson. intros H.
  destruct (toObject metadataJson) as [metadataObj|]; [simpl in H|done].
  destruct (overrideWith (get "name" metadataObj) _) as [name|];
    [simpl in H|done].
  destruct (overrideWith (get "description" metadataObj) _) as [descr|];
    [simpl in H|done].
  destruct (overrideWith (get "image" metadataObj) _) as [image|];
    [simpl in H|done].
  destruct (overrideWith (get "rewardId" metadataObj) _) as [rewardId|];
    [simpl in H|done].
  destruct (get "attributes" metadataObj) as [attributes|].
  - destruct (isArray attributes).
    + destruct (toArray attributes) as [attrArray|]; [simpl in H|done].
      destruct (saveAttributes _ _ _ _) as [sA|] eqn:E; [simpl in H|done].
      injection H as _ <-. by eapply saveAttributes_ledger.
    + simpl in H. injection H as _ <-. apply sameLedger_refl.
  - simpl in H. injection H as _ <-. apply sameLedger_refl.
Qed.

Lemma fetchAndParseMetadata_ledger net tokenId tokenURI s metadata s' :
  fetchAndParseMetadata net tokenId tokenURI s = Some (metadata, s') →
  sameLedger s s'.
Proof.
  unfold fetchAndParseMetadata. intros H.
  destruct tokenURI as [uri|]; [|by injection H as _ <-].
  destruct (isFalsy (Some uri)); [by injection H as _ <-|].
  destruct (retrieve net 0 uri ≫= try_fromBytes net) as [metadataJson|].
  - destruct (applyMetadataJson _ _ _ _) as [[md sA]|] eqn:E; [|done].
    simpl in H. apply applyMetadataJson_ledger in E.
    destruct (forgeIdPass _ _ _ _) as [[p md']|]; [|done].
    simpl in H. injection H as _ <-. exact E.
  - simpl in H. destruct (forgeIdPass _ _ _ _) as [[p md']|]; [|done].
    simpl in H. by injection H as _ <-.
Qed.

(** ** Zero-balance invariant *)

Lemma noZeroBalance_balanceUpdate user token delta timestamp m :
  noZeroBalance m → noZeroBalance (balanceUpdate user token delta timestamp m).
Proof.
  unfold noZeroBalance, balanceUpdate. intros Hm k b.
  case_decide as Hz.
  - rewrite lookup_delete. case_decide; [done|]. apply Hm.
  - rewrite lookup_insert. case_decide; [|apply Hm].
    intros [= <-]. done.
Qed.

Lemma balances_handleTransferSingle event operator from to tokenId amount s :
  balances (handleTransferSingle event operator from to tokenId amount s)
  = if decide (from = ZERO_ADDRESS)
    then balanceUpdate to tokenId amount (block_timestamp event) (balances s)
    else balanceUpdate to tokenId amount (block_timestamp event)
           (balanceUpdate from tokenId (- amount) (block_timestamp event)
              (balances s)).
Proof.
  unfold handleTransferSingle. case_decide.
  - apply handleTokenMint_frame.
  - by store_simpl.
Qed.

Lemma noZeroBalance_transferBatchLoop event operator from to ids :
  ∀ values s s',
    transferBatchLoop event operator from to ids values s = Some s' →
    noZeroBalance (balances s) → noZeroBalance (balances s').
Proof.
  induction ids as [|tokenId ids IH]; intros values s s' H Hs; simpl in H.
  - by injection H as <-.
  - destruct values as [|amount values]; [done|].
    eapply IH; [exact H|]. case_decide.
    + rewrite (proj1 (proj2 (handleTokenMint_frame _ _ _ _ _ _))).
      by apply noZeroBalance_balanceUpdate.
    + store_simpl. by do 2 apply noZeroBalance_balanceUpdate.
Qed.

Lemma balances_handleRoleChange granted event role account sender s :
  balances (handleRoleChange granted event role account sender s)
  = balances s.
Proof. unfold handleRoleChange. repeat step_user. by store_simpl. Qed.

Lemma balances_handleTokenCreated net event tokenId tokenType category
    subCategory s s' :
  handleTokenCreated net event tokenId tokenType category subCategory s
  = Some s' →
  balances s' = balances s.
Proof.
  unfold handleTokenCreated. intros H.
  destruct (tokens s !! tokenId) as [t|].
  - cbn [mbind option_bind] in H. revert H. repeat step_user. intros H.
    apply (inj Some) in H as <-. by store_simpl.
  - destruct (fetchAndParseMetadata _ _ _ _) as [[md sA]|] eqn:E; [|done].
    apply fetchAndParseMetadata_ledger in E as (_ & <- & _).
    cbn [mbind option_bind] in H. revert H. repeat step_user. intros H.
    apply (inj Some) in H as <-. by store_simpl.
Qed.

Lemma applyEvent_noZeroBalance net e s s' :
  applyEvent net e s = Some s' →
  noZeroBalance (balances s) → noZeroBalance (balances s').
Proof.
  destruct e; cbn [applyEvent]; intros H Hs.
  - by rewrite (balances_handleTokenCreated _ _ _ _ _ _ _ _ H).
  - apply (inj Some) in H as <-. rewrite balances_handleTransferSingle.
    case_decide; eauto using noZeroBalance_balanceUpdate.
  - unfold handleTransferBatch in H.
    destruct (transferBatchLoop _ _ _ _ _ _ _) as [sA|] eqn:E; [|done].
    cbn [mbind option_bind] in H. apply (inj Some) in H as <-. store_simpl.
    by eapply noZeroBalance_transferBatchLoop.
  - apply (inj Some) in H as <-. unfold handleRoleGranted.
    by rewrite balances_handleRoleChange.
  - apply (inj Some) in H as <-. unfold handleRoleRevoked.
    by rewrite balances_handleRoleChange.
Qed.

(** C2 (zero-balance invariant).  In every store the handlers can reach, no
    UserTokenBalance record has balance zero; and the balance step computes
    current + delta (absent = 0), removes the record when that is zero, and
    otherwise stores it with the new balance and the event timestamp,
    leaving every other record alone. *)
Theorem zero_balance_invariant :
  (∀ s, reachable s → ∀ k b, balances s !! k = Some b → balance b ≠ 0)
  ∧ (∀ address tokenId amount timestamp s,
       let current :=
         from_option balance 0 (balances s !! (address, tokenId)) in
       let s' := updateUserBalance address tokenId amount timestamp s in
       (current + amount = 0 → balances s' !! (address, tokenId) = None)
       ∧ (current + amount ≠ 0 →
          ∃ b, balances s' !! (address, tokenId) = Some b
               ∧ balance b = current + amount
               ∧ b_lastUpdated b = timestamp)
       ∧ (∀ k, k ≠ (address, tokenId) →
               balances s' !! k = balances s !! k)).
Proof.
  split.
  - intros s Hs. change (noZeroBalance (balances s)).
    induction Hs as [|net e s s' _ IH Hstep]; [by intros k b|].
    by eapply applyEvent_noZeroBalance.
  - intros address tokenId amount timestamp s current s'. subst s'.
    rewrite balances_updateUserBalance. unfold balanceUpdate.
    fold current. repeat split.
    + intros Hz. rewrite decide_True by done. apply lookup_delete_eq.
    + intros Hnz. rewrite decide_False by done.
      rewrite lookup_insert_eq. eauto.
    + intros k Hk. case_decide.
      * by rewrite lookup_delete_ne.
      * by rewrite lookup_insert_ne.
Qed.

(** ** Balance conservation *)








Lemma reachableKnown_reachable s : reachableKnown s → reachable s.
Proof. induction 1; eauto using reachable. Qed.









(** ** Runs of the ledger *)

(** A run that succeeds ends in the store it is read off from. *)
Lemma some_default {A : Type} (d : A) (o : option A) :
  isSomeb o = true → o = Some (default d o).
Proof. by destruct o. Qed.

Lemma applyEvents_reachable net es : ∀ s s',
  reachable s → applyEvents net es s = Some s' → reachable s'.
Proof.
  induction es as [|e es IH]; intros s s' Hs H; cbn [applyEvents] in H.
  - by apply (inj Some) in H as <-.
  - destruct (applyEvent net e s) as [sA|] eqn:E; [|done].
    cbn [mbind option_bind] in H. eauto using reachable.
Qed.

Lemma applyKnownEvents_reachable net es : ∀ s s',
  reachableKnown s → applyKnownEvents net es s = Some s' → reachableKnown s'.
Proof.
  induction es as [|e es IH]; intros s s' Hs H; cbn [applyKnownEvents] in H.
  - by apply (inj Some) in H as <-.
  - destruct (mintsKnown s e) eqn:Hk; [|done].
    destruct (applyEvent net e s) as [sA|] eqn:E; [|done].
    cbn [mbind option_bind] in H. eauto using reachableKnown.
Qed.

Example ledgerStore_run :
  (balance <$> balances ledgerStore !! (alice, 42)) = Some 2
  ∧ (balance <$> balances ledgerStore !! (bob, 42)) = Some 3
  ∧ (currentSupply <$> tokens ledgerStore !! 42) = Some 5
  ∧ balanceSum 42 (balances ledgerStore) = 5.
Proof. vm_compute. done. Qed.



Lemma zero_balance_invariant_witness :
  balance {| b_user := alice; b_token := 42; balance := 2;
             b_lastUpdated := 1700000003 |} ≠ 0.
Proof.
  apply (proj1 zero_balance_invariant ledgerStore) with (k := (alice, 42)).
  - apply reachableKnown_reachable.
    eapply (applyKnownEvents_reachable offline [create42; mint42; move42]);
      [constructor|].
    apply some_default. vm_compute. reflexivity.
  - vm_compute. reflexivity.
Defined.

(** ** Transfers of a token that has no Token entity *)

Lemma tokens_handleTransferSingle event operator from to tokenId amount s :
  tokens (handleTransferSingle event operator from to tokenId amount s)
  = if decide (from = ZERO_ADDRESS)
    then mintSupply tokenId amount (tokens s) else tokens s.
Proof.
  unfold handleTransferSingle. case_decide.
  - apply handleTokenMint_frame.
  - by store_simpl.
Qed.




(** ** Duplicate creation events *)

Lemma statsOf_updateGlobalStats timestamp incTokens incMints incUsers s :
  statsOf (updateGlobalStats timestamp incTokens incMints incUsers s)
  = {| totalTokens := if incTokens then totalTokens (statsOf s) + 1
                      else totalTokens (statsOf s);
       totalMints := if incMints then totalMints (statsOf s) + 1
                     else totalMints (statsOf s);
       totalUsers := if incUsers then totalUsers (statsOf s) + 1
                     else totalUsers (statsOf s);
       totalSupply := totalSupply (statsOf s);
       totalEvents := totalEvents (statsOf s) + 1;
       gs_lastUpdated := timestamp |}.
Proof. unfold statsOf, updateGlobalStats. by destruct (globalStats s). Qed.

Lemma totalTokens_registerUser address s :
  totalTokens (statsOf (registerUser address s)) = totalTokens (statsOf s).
Proof.
  unfold registerUser. destruct (users s !! address); [done|].
  by rewrite statsOf_updateGlobalStats.
Qed.

Lemma registerUser_known address s :
  is_Some (users s !! address) → registerUser address s = s.
Proof. intros [u Hu]. unfold registerUser. by rewrite Hu. Qed.

Lemma statsOf_ext s s' : globalStats s' = globalStats s → statsOf s' = statsOf s.
Proof. unfold statsOf. by intros ->. Qed.

(** Move [statsOf] down to the last store update that touches the global
    statistics. *)
Ltac stats_frame := erewrite statsOf_ext; [|store_cbn; reflexivity].

(** C3 (idempotent creation).  A TokenCreated event for an id whose Token
    exists is handled without failure and leaves the Token collection, and
    with it every field of that Token, as it was; the metadata, properties
    and attributes are not resolved again. *)
Theorem duplicate_creation_keeps_token net event tokenId tokenType category
    subCategory s t :
  tokens s !! tokenId = Some t →
  ∃ s', handleTokenCreated net event tokenId tokenType category subCategory s
        = Some s'
        ∧ tokens s' !! tokenId = Some t
        ∧ tokens s' = tokens s
        ∧ tokenMetadata s' = tokenMetadata s
        ∧ tokenProperties s' = tokenProperties s
        ∧ tokenAttributes s' = tokenAttributes s.
Proof.
  intros Ht. unfold handleTokenCreated. rewrite Ht.
  cbn [mbind option_bind]. repeat step_user.
  eexists. split; [reflexivity|]. by store_simpl.
Qed.

(** C10, as the handler behaves.  A TokenCreated event for an id whose Token
    exists still writes a TokenCreation record and a journal row, both
    under the id of the event: they are new records when that id is not in
    the store yet, and they take the place of the records of that id when
    it is (the same event delivered again).  In both cases the creator's
    creation counter, the global token counter and the tokens-created
    counter of the day each go up by one. *)
Theorem duplicate_creation_side_effects net event tokenId tokenType category
    subCategory s t :
  tokens s !! tokenId = Some t →
  ∃ s', handleTokenCreated net event tokenId tokenType category subCategory s
        = Some s'
        ∧ tokenCreations s'
          = <[eventIdOf event :=
                {| tc_token := tokenId; tc_tokenId := tokenId;
                   tc_tokenType := tokenType; tc_category := category;
                   tc_subCategory := subCategory;
                   tc_creator := tx_from event;
                   tc_timestamp := block_timestamp event;
                   tc_blockNumber := block_number event;
                   tc_transactionHash := tx_hash event |}]>
              (tokenCreations s)
        ∧ allEvents s'
          = <[eventIdOf event :=
                journalRow "TokenCreated"
                  ("Token created with ID: " +:+ pretty tokenId) event
                  (PCreated tokenId tokenType category subCategory
                     (tx_from event))]> (allEvents s)
        ∧ size (tokenCreations s')
          = (if decide (is_Some (tokenCreations s !! eventIdOf event))
             then size (tokenCreations s) else S (size (tokenCreations s)))
        ∧ size (allEvents s')
          = (if decide (is_Some (allEvents s !! eventIdOf event))
             then size (allEvents s) else S (size (allEvents s)))
        ∧ (totalTokensCreated <$> users s' !! tx_from event)
          = Some (from_option totalTokensCreated 0
                    (users s !! tx_from event) + 1)
        ∧ totalTokens (statsOf s') = totalTokens (statsOf s) + 1
        ∧ from_option tokensCreated 0
            (dailyStats s' !! dayOf (block_timestamp event))
          = from_option tokensCreated 0
              (dailyStats s !! dayOf (block_timestamp event)) + 1.
Proof.
  intros Ht. unfold handleTokenCreated. rewrite Ht.
  cbn [mbind option_bind]. repeat step_user.
  eexists. split; [reflexivity|].
  rewrite (registerUser_known (tx_from event) (with_allEvents _ _))
    by (store_simpl; by rewrite lookup_insert_eq).
  assert (∀ (A : Type) (m : gmap string A) k x,
            size (<[k:=x]> m)
            = if decide (is_Some (m !! k)) then size m else S (size m))
    as Hsize.
  { intros A m k x. case_decide as Hk.
    - destruct Hk as [y Hy].
      rewrite <-(insert_delete_eq m), map_size_insert_None
        by apply lookup_delete_eq.
      rewrite <-(insert_id m k y) at 2 by done.
      rewrite <-(insert_delete_eq m k y).
      by rewrite map_size_insert_None by apply lookup_delete_eq.
    - apply eq_None_not_Some in Hk. by rewrite map_size_insert_None. }
  repeat split.
  - by store_simpl.
  - by store_simpl.
  - store_simpl. apply Hsize.
  - store_simpl. apply Hsize.
  - store_simpl. rewrite lookup_insert_eq.
    cbn [fmap option_fmap option_map totalTokensCreated].
    unfold knownUser. store_simpl. rewrite lookup_insert_eq.
    by destruct (users s !! tx_from event).
  - stats_frame. rewrite statsOf_updateGlobalStats. cbn [totalTokens].
    stats_frame. by rewrite totalTokens_registerUser.
  - store_simpl. rewrite lookup_insert_eq.
    destruct (dailyStats s !! dayOf (block_timestamp event)); simpl; lia.
Qed.

(** ** The journal *)





(** ** Global counters *)

Lemma tallied_ext s s' : globalStats s' = globalStats s → tallied s → tallied s'.
Proof. unfold tallied. intros H. by rewrite (statsOf_ext _ _ H). Qed.

Lemma tallied_updateGlobalStats timestamp incTokens incMints incUsers s :
  oneFlag incTokens incMints incUsers = true →
  tallied s →
  tallied (updateGlobalStats timestamp incTokens incMints incUsers s).
Proof.
  unfold tallied. rewrite statsOf_updateGlobalStats.
  destruct incTokens, incMints, incUsers; try done; simpl; lia.
Qed.

Lemma tallied_registerUser address s :
  tallied s → tallied (registerUser address s).
Proof.
  unfold registerUser. destruct (users s !! address); [done|].
  by apply tallied_updateGlobalStats.
Qed.

Lemma globalStats_updateUserBalance address tokenId amount timestamp s :
  globalStats (updateUserBalance address tokenId amount timestamp s)
  = globalStats (registerUser address s).
Proof.
  unfold updateUserBalance, registerUser.
  destruct (balances s !! (address, tokenId)) as [b|]; cbn beta iota zeta;
    case_decide; step_user; store_cbn; unfold registerUser; store_cbn;
    by destruct (users s !! address).
Qed.

Lemma tallied_updateUserBalance address tokenId amount timestamp s :
  tallied s → tallied (updateUserBalance address tokenId amount timestamp s).
Proof.
  intros Hs. eapply tallied_ext; [apply globalStats_updateUserBalance|].
  by apply tallied_registerUser.
Qed.

(** Peel the store updates off a goal [tallied _]. *)
Ltac tallied_peel :=
  repeat (eapply tallied_ext; [store_cbn; reflexivity|];
          first [ apply tallied_registerUser
                | apply tallied_updateUserBalance
                | apply tallied_updateGlobalStats; [reflexivity|] ]);
  try (eapply tallied_ext; [store_cbn; reflexivity|]).

Lemma tallied_handleTokenMint to tokenId amount operator event s :
  tallied s → tallied (handleTokenMint to tokenId amount operator event s).
Proof.
  intros Hs. unfold handleTokenMint. step_user.
  destruct (tokens _ !! tokenId) as [t|]; cbn beta iota zeta;
    destruct (inventory _ !! (to, tokenId)); repeat step_user.
  all: tallied_peel; done.
Qed.

Lemma tallied_transferBatchLoop event operator from to ids :
  ∀ values s s',
    transferBatchLoop event operator from to ids values s = Some s' →
    tallied s → tallied s'.
Proof.
  induction ids as [|tokenId ids IH]; intros values s s' H Hs;
    cbn [transferBatchLoop] in H.
  - by apply (inj Some) in H as <-.
  - destruct values as [|amount values]; [done|].
    eapply IH; [exact H|]. case_decide.
    + by apply tallied_handleTokenMint.
    + by do 2 apply tallied_updateUserBalance.
Qed.

Lemma tallied_applyEvent net e s s' :
  applyEvent net e s = Some s' → tallied s → tallied s'.
Proof.
  destruct e; cbn [applyEvent]; intros H Hs.
  - unfold handleTokenCreated in H.
    destruct (tokens s !! tokenId) as [t|].
    + cbn [mbind option_bind] in H. revert H. repeat step_user. intros H.
      apply (inj Some) in H as <-. tallied_peel. done.
    + destruct (fetchAndParseMetadata _ _ _ _) as [[md sA]|] eqn:E; [|done].
      apply fetchAndParseMetadata_ledger in E as (_&_&_& Egs &_).
      cbn [mbind option_bind] in H. revert H. repeat step_user. intros H.
      apply (inj Some) in H as <-. tallied_peel.
      by eapply tallied_ext.
  - apply (inj Some) in H as <-. unfold handleTransferSingle. case_decide.
    + by apply tallied_handleTokenMint.
    + tallied_peel. done.
  - unfold handleTransferBatch in H.
    destruct (transferBatchLoop _ _ _ _ _ _ _) as [sA|] eqn:E; [|done].
    cbn [mbind option_bind] in H. apply (inj Some) in H as <-.
    eapply tallied_ext; [store_cbn; reflexivity|].
    by eapply tallied_transferBatchLoop.
  - apply (inj Some) in H as <-. unfold handleRoleGranted, handleRoleChange.
    repeat step_user. tallied_peel. done.
  - apply (inj Some) in H as <-. unfold handleRoleRevoked, handleRoleChange.
    repeat step_user. tallied_peel. done.
Qed.

(** The part of the fallback that holds.  When every retrieval for the URI
    comes back absent (no response, a status other than 200, no IPFS
    content) or with bytes that do not parse as JSON, and also when there
    is no URI at all, the resolver returns: it hands back, and stores under
    the token id, a metadata record with the default name "Token <id>",
    the default description, an empty image and an empty reward id. *)
Lemma metadata_fallback net tokenId tokenURI s :
  (∀ uri attempt,
     tokenURI = Some uri →
     retrieve net attempt uri ≫= try_fromBytes net = None) →
  ∃ metadata s',
    fetchAndParseMetadata net tokenId tokenURI s = Some (metadata, s')
    ∧ md_name metadata = "Token " +:+ pretty tokenId
    ∧ md_description metadata = "Description for token " +:+ pretty tokenId
    ∧ md_image metadata = ""
    ∧ md_rewardId metadata = ""
    ∧ tokenMetadata s' !! tokenId = Some metadata.
Proof.
  intros Hbad. unfold fetchAndParseMetadata.
  destruct tokenURI as [uri|].
  - destruct (isFalsy (Some uri)).
    + do 2 eexists. split; [reflexivity|]. store_cbn.
      by rewrite lookup_insert_eq.
    + unfold forgeIdPass. rewrite !Hbad by done. cbn [mbind option_bind].
      do 2 eexists. split; [reflexivity|]. store_cbn.
      by rewrite lookup_insert_eq.
  - do 2 eexists. split; [reflexivity|]. store_cbn.
    by rewrite lookup_insert_eq.
Qed.

Example metadata_fallback_run :
  ∃ metadata s',
    fetchAndParseMetadata garbled 42 (Some "ipfs://QmForge/42.json")
      emptyStore = Some (metadata, s')
    ∧ md_name metadata = "Token 42"
    ∧ md_description metadata = "Description for token 42"
    ∧ md_image metadata = ""
    ∧ md_rewardId metadata = ""
    ∧ tokenMetadata s' !! 42 = Some metadata.
Proof.
  apply (metadata_fallback garbled 42 (Some "ipfs://QmForge/42.json")
           emptyStore).
  intros uri attempt [= <-]. reflexivity.
Qed.

(** C8 (metadata fallback), where the resolver falls short.  Content that
    parses as JSON is handed to [toObject] and its fields to [toString]
    with no look at their kind (only the kind of [attributes] is looked
    at).  A document that is a list, and a document whose name is a number,
    make the resolver abort instead of returning the defaults, and the
    creation handler that called it stores nothing of the event. *)
Theorem metadata_fallback_gap :
  try_fromBytes listed "[1, 2]" = Some (JArray [JNumber "1"; JNumber "2"])
  ∧ fetchAndParseMetadata listed 42 (Some "ipfs://QmForge/42.json")
      emptyStore = None
  ∧ handleTokenCreated listed (eventAt 1 0 alice) 42 1 "Gear" "Helm"
      emptyStore = None
  ∧ fetchAndParseMetadata numbered 42 (Some "https://forge.example/42.json")
      emptyStore = None
  ∧ handleTokenCreated numbered (eventAt 1 0 alice) 42 1 "Gear" "Helm"
      emptyStore = None.
Proof.
  split; [reflexivity|].
  assert (fetchAndParseMetadata listed 42 (Some "ipfs://QmForge/42.json")
            emptyStore = None) as Hlist by (vm_compute; reflexivity).
  assert (fetchAndParseMetadata numbered 42
            (Some "https://forge.example/42.json") emptyStore = None)
    as Hnumber by (vm_compute; reflexivity).
  split; [exact Hlist|]. split.
  - unfold handleTokenCreated. cbn [tokens emptyStore].
    rewrite lookup_empty. cbn [try_uri listed]. by rewrite Hlist.
  - split; [exact Hnumber|].
    unfold handleTokenCreated. cbn [tokens emptyStore].
    rewrite lookup_empty. cbn [try_uri numbered]. by rewrite Hnumber.
Qed.

Example resolver_parses :
  ∃ metadata s',
    fetchAndParseMetadata served 42 (try_uri served 42) emptyStore
    = Some (metadata, s')
    ∧ md_name metadata = "Iron Helm"
    ∧ md_description metadata = "Description for token 42"
    ∧ md_rewardId metadata = "F-7"
    ∧ (ta_value <$> tokenAttributes s' !! (42, 0%nat)) = Some "3"
    ∧ tokenAttributes s' !! (42, 1%nat) = None
    ∧ (tp_forgeId <$> tokenProperties s' !! 42) = Some "F-7".
Proof. do 2 eexists. split; [vm_compute; reflexivity|]. vm_compute. done. Qed.

(** ** Event ordering *)

Lemma compareEvents_inOrder a b : compareEvents a b ≤ 0 ↔ inOrder a b.
Proof. unfold compareEvents, inOrder. case_decide; lia. Qed.

Lemma inOrder_total a b : inOrder a b ∨ inOrder b a.
Proof. unfold inOrder. lia. Qed.

Lemma inOrder_trans a b c : inOrder a b → inOrder b c → inOrder a c.
Proof. unfold inOrder. lia. Qed.

Lemma inOrder_antisym a b : inOrder a b → inOrder b a → keyOf a = keyOf b.
Proof. unfold inOrder, keyOf. intros. f_equal; lia. Qed.

Section SortBy.
Context {A : Type} (cmp : A → A → Z).

Lemma insertBy_Permutation x l : insertBy cmp x l ≡ₚ x :: l.
Proof.
  induction l as [|y l IH]; [done|]. simpl. case_decide; [done|].
  rewrite IH. apply Permutation_swap.
Qed.

Lemma sortBy_Permutation l : sortBy cmp l ≡ₚ l.
Proof.
  induction l as [|x l IH]; [done|]. unfold sortBy in *. simpl.
  by rewrite insertBy_Permutation, IH.
Qed.

Lemma filter_insertBy (P : A → Prop) `{∀ x, Decision (P x)} x l :
  (∀ y, P x → P y → cmp x y ≤ 0) →
  filter P (insertBy cmp x l) = filter P (x :: l).
Proof.
  intros Hties. induction l as [|y l IH]; [done|]. simpl.
  case_decide as Hxy; [done|].
  rewrite filter_cons, IH, !filter_cons.
  destruct (decide (P x)) as [Hx|]; [|done].
  destruct (decide (P y)) as [Hy|]; [|done].
  destruct Hxy. by apply Hties.
Qed.

Lemma filter_sortBy (P : A → Prop) `{∀ x, Decision (P x)} l :
  (∀ x y, P x → P y → cmp x y ≤ 0) →
  filter P (sortBy cmp l) = filter P l.
Proof.
  intros Hties. induction l as [|x l IH]; [done|]. unfold sortBy in *.
  simpl. rewrite filter_insertBy by eauto.
  by rewrite !filter_cons, IH.
Qed.
End SortBy.

Lemma insertBy_sorted x l :
  StronglySorted inOrder l →
  StronglySorted inOrder (insertBy compareEvents x l).
Proof.
  induction 1 as [|y l Hl IH Hy]; simpl.
  - by repeat constructor.
  - case_decide as Hxy.
    + apply compareEvents_inOrder in Hxy. constructor.
      * by constructor.
      * constructor; [done|].
        eapply Forall_impl; [exact Hy|]. eauto using inOrder_trans.
    + assert (inOrder y x) as Hyx.
      { destruct (inOrder_total x y) as [Hle|]; [|done].
        by apply compareEvents_inOrder in Hle. }
      constructor; [done|].
      rewrite insertBy_Permutation. by constructor.
Qed.

Lemma sortBy_sorted l : StronglySorted inOrder (sortBy compareEvents l).
Proof.
  induction l as [|x l IH]; [constructor|]. by apply insertBy_sorted.
Qed.

(** Two arrangements that are in order and list the events of every
    (block, log index) pair in the same sequence are the same arrangement. *)
Lemma sorted_stable_unique l1 : ∀ l2,
  StronglySorted inOrder l1 → StronglySorted inOrder l2 →
  (∀ k, filter (λ a, keyOf a = k) l1 = filter (λ a, keyOf a = k) l2) →
  l1 = l2.
Proof.
  induction l1 as [|x l1 IH]; intros l2 H1 H2 Hf.
  - destruct l2 as [|y l2]; [done|].
    specialize (Hf (keyOf y)). by rewrite filter_cons_True in Hf.
  - apply StronglySorted_cons in H1 as [Hx H1].
    destruct l2 as [|y l2].
    { specialize (Hf (keyOf x)). by rewrite filter_cons_True in Hf. }
    apply StronglySorted_cons in H2 as [Hy H2].
    assert (keyOf y = keyOf x) as Hk.
    { assert (x ∈ y :: l2) as Hin2.
      { eapply (list_elem_of_filter (λ a, keyOf a = keyOf x)).
        rewrite <-Hf, filter_cons_True by done. left. }
      assert (y ∈ x :: l1) as Hin1.
      { eapply (list_elem_of_filter (λ a, keyOf a = keyOf y)).
        rewrite Hf, filter_cons_True by done. left. }
      apply elem_of_cons in Hin2 as [->|Hin2]; [done|].
      apply elem_of_cons in Hin1 as [->|Hin1]; [done|].
      rewrite Forall_forall in Hx, Hy.
      by apply inOrder_antisym; [apply Hy|apply Hx]. }
    pose proof (Hf (keyOf x)) as Hfx.
    rewrite !filter_cons_True in Hfx by done.
    injection Hfx as <- Hfx. f_equal. apply IH; [done..|].
    intros k. destruct (decide (keyOf x = k)) as [<-|Hne]; [done|].
    specialize (Hf k). by rewrite !filter_cons_False in Hf.
Qed.

(** What the merge does achieve, in terms of the key the comparator
    computes (the block number, and the [logIndex] property or 0): the
    merged sequence holds exactly the events of the five merged lists, in
    order of that key, events with the same key staying in their input
    order, and it is the only arrangement of the input with these
    properties. *)
Lemma orderEvents_stable_sort (r : EventResults) :
  orderEvents r ≡ₚ combined r
  ∧ StronglySorted inOrder (orderEvents r)
  ∧ (∀ k, filter (λ a, keyOf a = k) (orderEvents r)
          = filter (λ a, keyOf a = k) (combined r))
  ∧ (∀ l, StronglySorted inOrder l →
          (∀ k, filter (λ a, keyOf a = k) l
                = filter (λ a, keyOf a = k) (combined r)) →
          l = orderEvents r).
Proof.
  assert (∀ k, filter (λ a, keyOf a = k) (orderEvents r)
               = filter (λ a, keyOf a = k) (combined r)) as Hstable.
  { intros k. apply filter_sortBy. intros x y Hx Hy.
    apply compareEvents_inOrder. unfold inOrder, keyOf in *.
    rewrite <-Hy in Hx. injection Hx as ??. lia. }
  repeat split.
  - apply sortBy_Permutation.
  - apply sortBy_sorted.
  - done.
  - intros l Hl Hf. apply sorted_stable_unique; [done|apply sortBy_sorted|].
    intros k. by rewrite Hf, Hstable.
Qed.

Lemma filter_agree {A} (Q P1 P2 : A → Prop) `{∀ x, Decision (P1 x)}
    `{∀ x, Decision (P2 x)} l :
  Forall Q l → (∀ x, Q x → P1 x ↔ P2 x) → filter P1 l = filter P2 l.
Proof.
  intros Hl Hiff. induction Hl as [|x l Hx _ IH]; [done|].
  destruct (decide (P1 x)) as [H1|H1].
  - rewrite !filter_cons_True by (done || by apply Hiff). by rewrite IH.
  - rewrite !filter_cons_False by (done || by rewrite <- Hiff). done.
Qed.

(** C6 (event ordering), where the merge falls short.  The logs of ethers 6
    carry their position in the block as [index] and have no [logIndex],
    so the comparator sees 0 for every event and the events of one block
    stay in the order of the concatenated lists, whatever their positions:
    four logs of block 100 fetched at positions 7 (creation), 3 (mint
    event), 2 and 5 (transfers) come out at positions 7, 2, 5, which is not
    ascending, and the fetched mint event, whose list is left out of the
    concatenation, is not in the sequence at all. *)
Theorem event_ordering_gap :
  orderEvents fetchedLogs
  = [logAt "TokenCreated" 100 7; logAt "TransferSingle" 100 2;
     logAt "TransferSingle" 100 5]
  ∧ ¬ StronglySorted chainOrder (orderEvents fetchedLogs)
  ∧ (logAt "TokenMinted" 100 3 ∉ orderEvents fetchedLogs)
  ∧ (∀ r, Forall (λ a, logIndex a = None) (combined r) →
          ∀ block, filter (λ a, blockNumber a = block) (orderEvents r)
                   = filter (λ a, blockNumber a = block) (combined r)).
Proof.
  assert (orderEvents fetchedLogs
          = [logAt "TokenCreated" 100 7; logAt "TransferSingle" 100 2;
             logAt "TransferSingle" 100 5]) as Hrun
    by (vm_compute; reflexivity).
  rewrite Hrun. repeat split.
  - intros Hsorted. apply StronglySorted_inv in Hsorted as [_ Hfirst].
    apply Forall_inv in Hfirst. unfold chainOrder in Hfirst. simpl in Hfirst.
    lia.
  - intros Hin. repeat (apply elem_of_cons in Hin as [Heq|Hin];
                        [discriminate Heq|]).
    by apply elem_of_nil in Hin.
  - intros r Hlogs block.
    assert (Forall (λ a, logIndex a = None) (orderEvents r)) as Hsortedlogs.
    { unfold orderEvents. by rewrite sortBy_Permutation. }
    rewrite <- (filter_agree (λ a, logIndex a = None)
                  (λ a, blockNumber a = block ∧ logIndex a = None)
                  (λ a, blockNumber a = block) (orderEvents r))
      by (done || (intros x Hx; split; [by intros [? _]|by split])).
    rewrite <- (filter_agree (λ a, logIndex a = None)
                  (λ a, blockNumber a = block ∧ logIndex a = None)
                  (λ a, blockNumber a = block) (combined r))
      by (done || (intros x Hx; split; [by intros [? _]|by split])).
    apply filter_sortBy. intros x y [Hx Hxl] [Hy Hyl].
    unfold compareEvents, logIndexOr0. rewrite Hxl, Hyl.
    rewrite decide_False by (intros Hne; apply Hne; congruence). simpl. lia.
Qed.

(** ** Chunked backfill *)

Lemma chunkLoop_app fromBlock currentBlock : ∀ acc,
  chunkLoop (λ f t acc, (acc ++ [(f, t)])%list) fromBlock currentBlock acc
  = (acc ++ issuedRanges fromBlock currentBlock)%list.
Proof.
  unfold issuedRanges.
  remember (Z.to_nat (currentBlock - fromBlock)) as n eqn:Hn.
  revert fromBlock Hn.
  induction (lt_wf n) as [n _ IH]. intros fromBlock Hn acc.
  rewrite (chunkLoop_equation_1 _ _ fromBlock).
  rewrite (chunkLoop_equation_1 _ _ fromBlock currentBlock []).
  destruct (decide (fromBlock < currentBlock)) as [Hlt|]; simpl.
  - erewrite (IH _ _ _ eq_refl (acc ++ _)%list).
    erewrite (IH _ _ _ eq_refl [_]).
    by rewrite <-app_assoc.
  - by rewrite app_nil_r.
  Unshelve. all: unfold maxBlockRange; lia.
Qed.

(** The loop, one iteration at a time. *)
Lemma issuedRanges_unfold fromBlock currentBlock :
  issuedRanges fromBlock currentBlock
  = if decide (fromBlock < currentBlock)
    then (fromBlock, Z.min (fromBlock + maxBlockRange) currentBlock)
         :: issuedRanges
              (Z.min (fromBlock + maxBlockRange) currentBlock + 1)
              currentBlock
    else [].
Proof.
  unfold issuedRanges at 1. rewrite chunkLoop_equation_1.
  destruct (decide (fromBlock < currentBlock)); simpl; [|done].
  by rewrite chunkLoop_app.
Qed.

(** Induction along the iterations of the loop. *)
Lemma issuedRanges_ind (currentBlock : Z) (P : Z → list (Z * Z) → Prop) :
  (∀ fromBlock, ¬ fromBlock < currentBlock → P fromBlock []) →
  (∀ fromBlock,
     fromBlock < currentBlock →
     let toBlock := Z.min (fromBlock + maxBlockRange) currentBlock in
     P (toBlock + 1) (issuedRanges (toBlock + 1) currentBlock) →
     P fromBlock
       ((fromBlock, toBlock) :: issuedRanges (toBlock + 1) currentBlock)) →
  ∀ fromBlock, P fromBlock (issuedRanges fromBlock currentBlock).
Proof.
  intros Hstop Hstep fromBlock.
  remember (Z.to_nat (currentBlock - fromBlock)) as n eqn:Hn.
  revert fromBlock Hn.
  induction (lt_wf n) as [n _ IH]. intros fromBlock Hn.
  rewrite issuedRanges_unfold.
  destruct (decide (fromBlock < currentBlock)) as [Hlt|]; [|by apply Hstop].
  apply Hstep; [done|].
  eapply IH; [|reflexivity]. unfold maxBlockRange. lia.
Qed.

Lemma timesCovered_outside block ranges :
  Forall (λ r, ¬ covers block r) ranges → timesCovered block ranges = 0%nat.
Proof.
  unfold timesCovered. induction 1 as [|r ranges Hr _ IH]; [done|].
  by rewrite filter_cons_False.
Qed.

(** X22.  What the chunking loop does achieve: the sub-ranges are consecutive,
    each spans at most [maxBlockRange] block numbers and stays inside
    [fromBlock, currentBlock], and every block below [currentBlock] lies in
    exactly one of them. *)
Lemma chunks_below_head fromBlock currentBlock :
  chained fromBlock (issuedRanges fromBlock currentBlock)
  ∧ Forall (λ r, fromBlock ≤ r.1 ∧ r.1 ≤ r.2 ∧ r.2 ≤ currentBlock
                 ∧ r.2 - r.1 ≤ maxBlockRange)
      (issuedRanges fromBlock currentBlock)
  ∧ ∀ block, fromBlock ≤ block < currentBlock →
             timesCovered block (issuedRanges fromBlock currentBlock) = 1%nat.
Proof.
  revert fromBlock.
  apply (issuedRanges_ind currentBlock
           (λ fromBlock ranges,
              chained fromBlock ranges
              ∧ Forall (λ r, fromBlock ≤ r.1 ∧ r.1 ≤ r.2 ∧ r.2 ≤ currentBlock
                             ∧ r.2 - r.1 ≤ maxBlockRange) ranges
              ∧ ∀ block, fromBlock ≤ block < currentBlock →
                         timesCovered block ranges = 1%nat)).
  - intros fromBlock Hstop. repeat split; [constructor|]. intros block. lia.
  - intros fromBlock Hlt toBlock (Hchain & Hshape & Hcover).
    assert (fromBlock ≤ toBlock ∧ toBlock ≤ currentBlock
            ∧ toBlock - fromBlock ≤ maxBlockRange) as Hto
      by (unfold toBlock, maxBlockRange; lia).
    repeat split; [done|..].
    + constructor; [simpl; lia|].
      eapply Forall_impl; [exact Hshape|]. simpl. intros [f t]; simpl. lia.
    + intros block Hblock. unfold timesCovered.
      destruct (decide (block ≤ toBlock)) as [Hin|Hout].
      * rewrite filter_cons_True by (unfold covers; simpl; lia).
        simpl. f_equal. apply timesCovered_outside.
        eapply Forall_impl; [exact Hshape|].
        unfold covers. intros [f t]; simpl. lia.
      * rewrite filter_cons_False by (unfold covers; simpl; lia).
        apply Hcover. lia.
Qed.

(** X23.  The block at the head of the chain is queried unless the distance from
    the start is a multiple of the stride of the loop. *)
Lemma head_block_coverage currentBlock : ∀ fromBlock,
  fromBlock ≤ currentBlock →
  timesCovered currentBlock (issuedRanges fromBlock currentBlock)
  = if decide ((currentBlock - fromBlock) `mod` (maxBlockRange + 1) = 0)
    then 0%nat else 1%nat.
Proof.
  apply (issuedRanges_ind currentBlock
           (λ fromBlock ranges,
              fromBlock ≤ currentBlock →
              timesCovered currentBlock ranges
              = if decide ((currentBlock - fromBlock)
                           `mod` (maxBlockRange + 1) = 0)
                then 0%nat else 1%nat)).
  - intros fromBlock Hstop Hle. assert (fromBlock = currentBlock) as -> by lia.
    by rewrite Z.sub_diag.
  - intros fromBlock Hlt toBlock IH _. unfold timesCovered, toBlock in *.
    unfold maxBlockRange in *.
    destruct (decide (fromBlock + 45000 < currentBlock)) as [Hfar|Hnear].
    + rewrite Z.min_l in * by lia.
      rewrite filter_cons_False by (unfold covers; simpl; lia).
      rewrite IH by lia.
      replace (currentBlock - fromBlock)
        with (currentBlock - (fromBlock + 45000 + 1) + 1 * (45000 + 1))
        by lia.
      by rewrite Z.mod_add.
    + rewrite Z.min_r in * by lia.
      rewrite filter_cons_True by (unfold covers; simpl; lia).
      rewrite issuedRanges_unfold, decide_False by lia.
      rewrite decide_False; [done|].
      rewrite Z.mod_small; lia.
Qed.

(** C7 (chunk coverage), at the inputs where the loop falls short.  With
    the start block of the indexer and the chain head 45001 blocks after
    it, one sub-range is queried and it stops one block short of the head;
    with the head at the start block nothing is queried.  In both cases the
    block at the head of the chain, which lies in [start, end], is in no
    sub-range. *)
Theorem chunk_coverage_gap :
  issuedRanges 29970000 30015001 = [(29970000, 30015000)]
  ∧ timesCovered 30015001 (issuedRanges 29970000 30015001) = 0%nat
  ∧ issuedRanges 29970000 29970000 = []
  ∧ timesCovered 29970000 (issuedRanges 29970000 29970000) = 0%nat.
Proof.
  assert (issuedRanges 29970000 30015001 = [(29970000, 30015000)]) as ->.
  { rewrite issuedRanges_unfold. simpl. by rewrite issuedRanges_unfold. }
  assert (issuedRanges 29970000 29970000 = []) as ->
    by by rewrite issuedRanges_unfold.
  done.
Qed.

(** ** Runs of the counters, the journal and duplicate creation *)

(** The total-event counter does not count applied events: a second role
    grant to bob, whose User exists by then, is applied and journalled and
    leaves the counter at 1. *)
Lemma global_counters_counterexample :
  ¬ (∀ net e s s',
       reachable s → applyEvent net e s = Some s' →
       totalEvents (statsOf s') = totalEvents (statsOf s) + 1).
Proof.
  intros H.
  specialize (H offline (grantBob 7) grantedStore
                (handleRoleGranted (eventAt 7 0 alice) MINTER_ROLE bob alice
                   grantedStore)).
  assert (reachable grantedStore) as Hr.
  { apply (reachable_step offline (grantBob 6) emptyStore);
      [constructor|reflexivity]. }
  specialize (H Hr eq_refl). clear Hr.
  vm_compute in H. discriminate H.
Qed.



Lemma duplicate_creation_keeps_token_witness :
  ∃ s', handleTokenCreated served (eventAt 9 0 bob) 42 2 "Relic" "Ring"
          createdStore = Some s'
        ∧ tokens s' !! 42 = Some token42
        ∧ tokens s' = tokens createdStore
        ∧ tokenMetadata s' = tokenMetadata createdStore
        ∧ tokenProperties s' = tokenProperties createdStore
        ∧ tokenAttributes s' = tokenAttributes createdStore.
Proof.
  apply (duplicate_creation_keeps_token served (eventAt 9 0 bob) 42 2
           "Relic" "Ring" createdStore token42).
  vm_compute. reflexivity.
Defined.

Lemma duplicate_creation_side_effects_witness :
  ∃ s', handleTokenCreated offline (eventAt 1 0 alice) 42 1 "Gear" "Helm"
          createdStore = Some s'
        ∧ size (tokenCreations s') = size (tokenCreations createdStore)
        ∧ size (allEvents s') = size (allEvents createdStore)
        ∧ (totalTokensCreated <$> users s' !! alice) = Some 2
        ∧ totalTokens (statsOf s') = 2.
Proof.
  destruct (duplicate_creation_side_effects offline (eventAt 1 0 alice) 42 1
              "Gear" "Helm" createdStore token42)
    as (s' & Hrun & _ & _ & Hcreations & Hrows & Huser & Htokens & _).
  { vm_compute. reflexivity. }
  exists s'. split; [exact Hrun|].
  split; [exact Hcreations|]. split; [exact Hrows|].
  split; [exact Huser|exact Htokens].
Defined.

(** The same creation event delivered twice: the second delivery creates
    no new TokenCreation record and no new journal row (the records of the
    first delivery are written again under the same id), while the global
    token counter goes from 1 to 2. *)
Lemma duplicate_creation_side_effects_counterexample :
  ¬ (∀ net event tokenId tokenType category subCategory s t,
       tokens s !! tokenId = Some t →
       ∃ s', handleTokenCreated net event tokenId tokenType category
               subCategory s = Some s'
             ∧ size (tokenCreations s') = S (size (tokenCreations s))
             ∧ size (allEvents s') = S (size (allEvents s))).
Proof.
  intros H.
  destruct (H offline (eventAt 1 0 alice) 42 1 "Gear" "Helm" createdStore
              token42) as (s' & Hrun & Hcreations & _).
  { vm_compute. reflexivity. }
  assert (handleTokenCreated offline (eventAt 1 0 alice) 42 1 "Gear" "Helm"
            createdStore
          = Some (default emptyStore
                    (handleTokenCreated offline (eventAt 1 0 alice) 42 1
                       "Gear" "Helm" createdStore))) as Hsame
    by (apply some_default; vm_compute; reflexivity).
  rewrite Hsame in Hrun. apply (inj Some) in Hrun as <-.
  vm_compute in Hcreations. discriminate Hcreations.
Qed.

(** * Invariants and behaviour of the handlers *)

(** ** The handlers as sequences of store writes *)

(** Projections through the store updates, leaving the aggregate updates
    folded. *)
Ltac proj_cbn :=
  cbn [tokens tokenMetadata tokenProperties tokenAttributes tokenCreations
       tokenMints users balances inventory roleChanges globalStats
       dailyStats allEvents with_tokens with_tokenMetadata
       with_tokenProperties with_tokenAttributes with_tokenCreations
       with_tokenMints with_users with_balances with_inventory
       with_roleChanges with_globalStats with_dailyStats with_allEvents].

Ltac store_simpl_in H :=
  repeat progress
    (cbn [tokens tokenMetadata tokenProperties tokenAttributes tokenCreations
          tokenMints users balances inventory roleChanges globalStats
          dailyStats allEvents with_tokens with_tokenMetadata
          with_tokenProperties with_tokenAttributes with_tokenCreations
          with_tokenMints with_users with_balances with_inventory
          with_roleChanges with_globalStats with_dailyStats with_allEvents]
       in H;
     autorewrite with store in H).

(** Take the last write off a goal [rtc step s (write ...)]. *)
Ltac peel_step :=
  eapply rtc_r;
  [|first
      [ apply step_register
      | apply step_balance
      | apply step_stats; reflexivity
      | apply step_daily; reflexivity
      | apply step_journal
      | apply step_tokenMint
      | apply step_creation
      | apply step_roleChange
      | eapply step_saveUser;
        [proj_cbn; apply lookup_insert_eq|reflexivity..] ]].

Lemma steps_handleTokenMint to tokenId amount operator event s :
  rtc step s (handleTokenMint to tokenId amount operator event s).
Proof.
  unfold handleTokenMint. step_user.
  destruct (tokens _ !! tokenId) as [t|] eqn:Ht; cbn beta iota zeta;
    destruct (inventory _ !! (to, tokenId)) as [item|] eqn:Hitem;
    repeat step_user.
  all: do 5 peel_step.
  all: (eapply rtc_r;
        [|apply step_inventory; intros old Hold;
          store_simpl_in Hold; store_simpl_in Hitem; simpl; congruence]).
  all: repeat peel_step.
  all: try (eapply rtc_r; [|by apply (step_supply tokenId t amount)]).
  all: repeat peel_step.
  all: apply rtc_refl.
Qed.

(** What the resolver writes: attributes, the properties of the token and
    the metadata of the token, whose id is the token id. *)
Lemma saveAttributes_writes tokenId attrArray : ∀ i s s',
  saveAttributes tokenId i attrArray s = Some s' →
  ∃ f, s' = with_tokenAttributes f s.
Proof.
  induction attrArray as [|attr attrArray IH]; intros i s s' H; simpl in H.
  - apply (inj Some) in H as <-. by exists id.
  - destruct (toObject attr) as [attrObj|]; [simpl in H|done].
    destruct (get "trait_type" attrObj) as [traitType|],
      (get "value" attrObj) as [value|]; simpl in H;
      try (by eapply IH).
    destruct (toString traitType) as [tt|]; [simpl in H|done].
    destruct (toString value) as [v|]; [simpl in H|done].
    apply IH in H as [f ->]. by eexists (λ m, f (insert _ _ m)).
Qed.

Lemma applyMetadataJson_writes tokenId metadataJson metadata s metadata' s' :
  applyMetadataJson tokenId metadataJson metadata s = Some (metadata', s') →
  md_id metadata' = md_id metadata
  ∧ md_properties metadata' = md_properties metadata
  ∧ ∃ f, s' = with_tokenAttributes f s.
Proof.
  unfold applyMetadataJson. intros H.
  destruct (toObject metadataJson) as [metadataObj|]; [simpl in H|done].
  destruct (overrideWith (get "name" metadataObj) _) as [name|];
    [simpl in H|done].
  destruct (overrideWith (get "description" metadataObj) _) as [descr|];
    [simpl in H|done].
  destruct (overrideWith (get "image" metadataObj) _) as [image|];
    [simpl in H|done].
  destruct (overrideWith (get "rewardId" metadataObj) _) as [rewardId|];
    [simpl in H|done].
  destruct (get "attributes" metadataObj) as [attributes|].
  - destruct (isArray attributes).
    + destruct (toArray attributes) as [attrArray|]; [simpl in H|done].
      destruct (saveAttributes _ _ _ _) as [sA|] eqn:E; [simpl in H|done].
      injection H as <- <-. repeat split.
      by eapply saveAttributes_writes.
    + simpl in H. injection H as <- <-. repeat split. by exists id.
  - simpl in H. injection H as <- <-. repeat split. by exists id.
Qed.

Lemma forgeIdPass_ids net uri properties metadata properties' metadata' :
  forgeIdPass net uri properties metadata = Some (properties', metadata') →
  md_id metadata' = md_id metadata.
Proof.
  unfold forgeIdPass. intros H.
  destruct (retrieve net 1 uri ≫= try_fromBytes net) as [metadataJson|];
    [|by injection H as _ <-].
  destruct (toObject metadataJson) as [metadataObj|]; [simpl in H|done].
  destruct (get "forge_id" metadataObj) as [forgeId|];
    [|by injection H as _ <-].
  destruct (toString forgeId); [simpl in H|done]. by injection H as _ <-.
Qed.

Lemma fetchAndParseMetadata_writes net tokenId tokenURI s metadata s' :
  fetchAndParseMetadata net tokenId tokenURI s = Some (metadata, s') →
  md_id metadata = tokenId
  ∧ tokenMetadata s' = <[tokenId := metadata]> (tokenMetadata s).
Proof.
  unfold fetchAndParseMetadata. intros H.
  destruct tokenURI as [uri|]; [|by injection H as <- <-].
  destruct (isFalsy (Some uri)); [by injection H as <- <-|].
  destruct (retrieve net 0 uri ≫= try_fromBytes net) as [metadataJson|].
  - destruct (applyMetadataJson _ _ _ _) as [[md sA]|] eqn:E; [|done].
    simpl in H. apply applyMetadataJson_writes in E as (Eid & _ & f & ->).
    destruct (forgeIdPass _ _ _ _) as [[p md']|] eqn:Ep; [|done].
    apply forgeIdPass_ids in Ep.
    simpl in H. injection H as <- <-.
    split; [cbn [md_id]; by rewrite Ep, Eid|done].
  - simpl in H. destruct (forgeIdPass _ _ _ _) as [[p md']|] eqn:Ep; [|done].
    apply forgeIdPass_ids in Ep.
    simpl in H. injection H as <- <-.
    split; [cbn [md_id]; by rewrite Ep|done].
Qed.

Lemma steps_handleRoleChange granted event role account sender s :
  rtc step s (handleRoleChange granted event role account sender s).
Proof.
  unfold handleRoleChange. repeat step_user. repeat peel_step.
  apply rtc_refl.
Qed.

Lemma steps_transferBatchLoop event operator from to ids : ∀ values s s',
  transferBatchLoop event operator from to ids values s = Some s' →
  rtc step s s'.
Proof.
  induction ids as [|tokenId ids IH]; intros values s s' H;
    cbn [transferBatchLoop] in H.
  - apply (inj Some) in H as <-. apply rtc_refl.
  - destruct values as [|amount values]; [done|].
    etrans; [|by eapply IH]. case_decide.
    + apply steps_handleTokenMint.
    + do 2 peel_step. apply rtc_refl.
Qed.

(** Every handler is a sequence of such writes. *)
Lemma steps_applyEvent net e s s' :
  applyEvent net e s = Some s' → rtc step s s'.
Proof.
  destruct e; cbn [applyEvent]; intros H.
  - unfold handleTokenCreated in H.
    destruct (tokens s !! tokenId) as [t|] eqn:Ht.
    + cbn [mbind option_bind] in H. revert H. repeat step_user. intros H.
      apply (inj Some) in H as <-. repeat peel_step. apply rtc_refl.
    + destruct (fetchAndParseMetadata _ _ _ _) as [[md sA]|] eqn:E; [|done].
      pose proof (fetchAndParseMetadata_writes _ _ _ _ _ _ E) as [Eid Emd].
      pose proof (fetchAndParseMetadata_ledger _ _ _ _ _ _ E) as Eledger.
      cbn [mbind option_bind] in H. revert H. repeat step_user. intros H.
      apply (inj Some) in H as <-. repeat peel_step.
      assert (tokens sA = tokens s) as Etokens by apply Eledger.
      eapply rtc_r.
      2:{ apply step_newToken; proj_cbn;
            cbn [md_id currentSupply t_tokenId t_metadata]; rewrite ?Eid;
            [by rewrite Etokens|done..|].
          eexists. split; [apply lookup_insert_eq|by repeat split]. }
      eapply rtc_r.
      2:{ apply (step_metadata sA); [by repeat split|].
          intros id Hid. proj_cbn. cbn [md_id]. rewrite Eid.
          rewrite lookup_insert_ne; [done|].
          intros ->. rewrite Etokens, Ht in Hid. by destruct Hid. }
      apply rtc_once. apply step_metadata; [done|].
      intros id Hid. rewrite Emd, lookup_insert_ne; [done|].
      intros ->. rewrite Ht in Hid. by destruct Hid.
  - apply (inj Some) in H as <-. unfold handleTransferSingle. case_decide.
    + apply steps_handleTokenMint.
    + repeat peel_step. apply rtc_refl.
  - unfold handleTransferBatch in H.
    destruct (transferBatchLoop _ _ _ _ _ _ _) as [sA|] eqn:E; [|done].
    cbn [mbind option_bind] in H. apply (inj Some) in H as <-.
    peel_step. by eapply steps_transferBatchLoop.
  - apply (inj Some) in H as <-. apply steps_handleRoleChange.
  - apply (inj Some) in H as <-. apply steps_handleRoleChange.
Qed.

Lemma steps_reachable s : reachable s → rtc step emptyStore s.
Proof.
  induction 1 as [|net e s s' _ IH Hstep]; [apply rtc_refl|].
  etrans; [exact IH|]. by eapply steps_applyEvent.
Qed.

(** A property that holds of the empty store and that no write breaks holds
    of every reachable store. *)
Lemma reachable_invariant (P : Store → Prop) :
  P emptyStore → (∀ s s', step s s' → P s → P s') →
  ∀ s, reachable s → P s.
Proof.
  intros Hempty Hstep s Hs. apply steps_reachable in Hs.
  revert s Hs. apply rtc_ind_r; eauto.
Qed.

(** ** Invariants of the reachable stores *)

Lemma users_updateUserBalance address tokenId amount timestamp s :
  users (updateUserBalance address tokenId amount timestamp s)
  = <[address :=
        {| u_address := u_address (knownUser address s);
           totalTokensCreated := totalTokensCreated (knownUser address s);
           totalTokensMinted := totalTokensMinted (knownUser address s);
           firstInteraction := firstInteraction (knownUser address s);
           lastInteraction := timestamp;
           totalInventoryValue :=
             totalInventoryValue (knownUser address s) + amount |}]>
      (users s).
Proof.
  unfold updateUserBalance.
  destruct (balances s !! (address, tokenId)) as [b|]; cbn beta iota zeta;
    case_decide; step_user; store_simpl;
    rewrite insert_insert_eq; unfold knownUser; store_simpl; reflexivity.
Qed.

Lemma updateUserBalance_frame2 address tokenId amount timestamp s :
  tokenMetadata (updateUserBalance address tokenId amount timestamp s)
  = tokenMetadata s
  ∧ tokenCreations (updateUserBalance address tokenId amount timestamp s)
    = tokenCreations s
  ∧ roleChanges (updateUserBalance address tokenId amount timestamp s)
    = roleChanges s.
Proof.
  unfold updateUserBalance.
  destruct (balances s !! (address, tokenId)) as [b|]; cbn beta iota zeta;
    case_decide; step_user; store_simpl;
    unfold registerUser; proj_cbn; by destruct (users s !! address).
Qed.

Lemma knownUser_fields address s :
  from_option totalInventoryValue 0 (users s !! address)
  = totalInventoryValue (knownUser address s)
  ∧ (∀ u, users s !! address = Some u → knownUser address s = u)
  ∧ (users s !! address = None → knownUser address s = newUser address).
Proof.
  unfold knownUser.
  destruct (users s !! address); simpl; repeat split; congruence.
Qed.

(** *** Users *)

Lemma size_insert_known `{Countable K} {A} (m : gmap K A) k x :
  is_Some (m !! k) → size (<[k:=x]> m) = size m.
Proof.
  intros [y Hy]. rewrite <-(insert_delete_eq m), map_size_insert_None
    by apply lookup_delete_eq.
  rewrite <-(insert_id m k y) at 2 by done.
  rewrite <-(insert_delete_eq m k y).
  by rewrite map_size_insert_None by apply lookup_delete_eq.
Qed.

Lemma usersCounted_register address u s :
  usersCounted s →
  usersCounted (with_users (insert address u) (registerUser address s)).
Proof.
  unfold usersCounted, registerUser. intros Hs.
  destruct (users s !! address) as [k|] eqn:Hk.
  - erewrite statsOf_ext by (proj_cbn; reflexivity). proj_cbn.
    by rewrite size_insert_known by eauto.
  - erewrite statsOf_ext by (proj_cbn; reflexivity).
    rewrite statsOf_updateGlobalStats. proj_cbn.
    rewrite map_size_insert_None by done. simpl. lia.
Qed.

Lemma usersCounted_step s s' : step s s' → usersCounted s → usersCounted s'.
Proof.
  unfold usersCounted at 1.
  destruct 1 as [s s' Hl _|a s|a k u s Hk _ _ _|a t v ts s|ts b1 b2 s _
                 |ts b1 b2 s _| | | | | | | ]; intros Hs; try exact Hs.
  - destruct Hl as (_ & _ & Hu & Hg & _). unfold usersCounted.
    by rewrite (statsOf_ext _ _ Hg), Hu.
  - by apply usersCounted_register.
  - unfold usersCounted. erewrite statsOf_ext by (proj_cbn; reflexivity).
    proj_cbn. by rewrite size_insert_known by eauto.
  - assert (usersCounted
              (with_users
                 (insert a (knownUser a s)) (registerUser a s))) as Hreg
      by by apply usersCounted_register.
    unfold usersCounted in *.
    rewrite (statsOf_ext _ _ (globalStats_updateUserBalance a t v ts s)).
    rewrite users_updateUserBalance.
    erewrite statsOf_ext in Hreg by (proj_cbn; reflexivity).
    rewrite Hreg. proj_cbn. autorewrite with store.
    destruct (decide (is_Some (users s !! a))) as [Hk|Hk].
    + by rewrite !size_insert_known.
    + apply eq_None_not_Some in Hk. by rewrite !map_size_insert_None.
Qed.

Lemma usersKeyed_step s s' : step s s' → usersKeyed s → usersKeyed s'.
Proof.
  unfold usersKeyed at 1.
  destruct 1 as [s s' Hl _|a s|a k u s Hk Ha Hf _|a t v ts s|ts b1 b2 s _
                 |ts b1 b2 s _| | | | | | | ]; intros Hs; try exact Hs.
  - destruct Hl as (_ & _ & Hu & _). unfold usersKeyed. by rewrite Hu.
  - intros a' u. proj_cbn. autorewrite with store.
    rewrite lookup_insert. case_decide as Ha; [|apply Hs].
    subst a'. intros [= <-]. unfold knownUser.
    destruct (users s !! a) as [k|] eqn:Hk; [by apply Hs|done].
  - intros a' u'. proj_cbn. rewrite lookup_insert.
    case_decide as Ha'; [|apply Hs]. subst a'. intros [= <-].
    rewrite Ha, Hf. by apply Hs.
  - intros a' u. rewrite users_updateUserBalance, lookup_insert.
    case_decide as Ha; [|apply Hs]. subst a'. intros [= <-]. simpl.
    unfold knownUser.
    destruct (users s !! a) as [k|] eqn:Hk; [by apply Hs|done].
Qed.

(** *** The inventory value of a user *)

Lemma userSum_insert_fresh user k b m :
  m !! k = None →
  userSum user (<[k:=b]> m) = userShare user b + userSum user m.
Proof.
  intros Hk. unfold userSum, userShare.
  rewrite map_fold_insert_L; [by case_decide| |done].
  intros. repeat case_decide; lia.
Qed.

Lemma userSum_delete user k b m :
  m !! k = Some b →
  userSum user (delete k m) = userSum user m - userShare user b.
Proof.
  intros Hk. unfold userSum at 2.
  rewrite (map_fold_delete_L _ _ k b m); [| |done].
  - fold (userSum user (delete k m)). unfold userShare. case_decide; lia.
  - intros. repeat case_decide; lia.
Qed.

Lemma userSum_insert user k b m :
  userSum user (<[k:=b]> m)
  = userSum user m + userShare user b
    - from_option (userShare user) 0 (m !! k).
Proof.
  destruct (m !! k) as [b0|] eqn:Hk; simpl.
  - rewrite <-insert_delete_eq.
    rewrite userSum_insert_fresh by apply lookup_delete_eq.
    rewrite (userSum_delete _ _ b0) by done. lia.
  - rewrite userSum_insert_fresh by done. lia.
Qed.

Lemma userSum_balanceUpdate user a t delta timestamp m :
  userKeyed m →
  userSum user (balanceUpdate a t delta timestamp m)
  = userSum user m + (if decide (a = user) then delta else 0).
Proof.
  intros Hm. unfold balanceUpdate.
  destruct (m !! (a, t)) as [b|] eqn:Hb; simpl.
  - pose proof (Hm _ _ _ Hb) as Ha. case_decide as Hz.
    + rewrite (userSum_delete _ _ b) by done. unfold userShare.
      rewrite Ha. case_decide; lia.
    + rewrite userSum_insert, Hb. unfold userShare. simpl.
      rewrite Ha. case_decide; lia.
  - case_decide as Hz.
    + rewrite delete_id by done. assert (delta = 0) as -> by lia.
      case_decide; lia.
    + rewrite userSum_insert, Hb. unfold userShare. simpl.
      case_decide; lia.
Qed.

Lemma userKeyed_balanceUpdate a t delta timestamp m :
  userKeyed m → userKeyed (balanceUpdate a t delta timestamp m).
Proof.
  intros Hm user' token' b. unfold balanceUpdate. case_decide.
  - rewrite lookup_delete. case_decide; [done|]. apply Hm.
  - rewrite lookup_insert. case_decide as Hk; [|apply Hm].
    injection Hk as <- <-. intros [= <-]. simpl.
    destruct (m !! (a, t)) as [b0|] eqn:Hb; simpl; [|done].
    by eapply Hm.
Qed.

Lemma valueTallied_step s s' : step s s' → valueTallied s → valueTallied s'.
Proof.
  unfold valueTallied at 1.
  destruct 1 as [s s' Hl _|a s|a k u s Hk _ _ Hv|a t v ts s|ts b1 b2 s _
                 |ts b1 b2 s _| | | | | | | ]; intros [Hkey Hs];
    try (split; [exact Hkey|exact Hs]).
  - destruct Hl as (_ & Hb & Hu & _). unfold valueTallied.
    by rewrite Hb, Hu.
  - split; proj_cbn; autorewrite with store; [done|].
    intros a'. rewrite lookup_insert. case_decide as Ha; [|apply Hs].
    subst a'. simpl. rewrite Hs. apply knownUser_fields.
  - split; proj_cbn; [done|].
    intros a'. rewrite lookup_insert. case_decide as Ha; [|apply Hs].
    subst a'. simpl. by rewrite Hs, Hk, Hv.
  - split.
    + rewrite balances_updateUserBalance. by apply userKeyed_balanceUpdate.
    + intros a'. rewrite balances_updateUserBalance, users_updateUserBalance.
      rewrite userSum_balanceUpdate by done.
      rewrite lookup_insert, Hs. case_decide as Ha; [|lia].
      subst a'. simpl. f_equal. apply knownUser_fields.
Qed.

(** *** Daily buckets *)

Lemma dailyTallied_step s s' : step s s' → dailyTallied s → dailyTallied s'.
Proof.
  unfold dailyTallied at 1.
  destruct 1 as [s s' Hl _|a s|a k u s Hk _ _ Hv|a t v ts s|ts b1 b2 s _
                 |ts b1 b2 s Hflags| | | | | | | ]; intros Hs; try exact Hs.
  - destruct Hl as (_ & _ & _ & _ & Hd & _). unfold dailyTallied.
    by rewrite Hd.
  - unfold dailyTallied. proj_cbn. by autorewrite with store.
  - unfold dailyTallied.
    by rewrite (proj1 (proj2 (proj2 (proj2
                 (updateUserBalance_frame a t v ts s))))).
  - intros d r. cbn [dailyStats updateDailyStats with_dailyStats].
    rewrite lookup_insert. case_decide as Hd; [|apply Hs].
    subst d. intros [= <-]. simpl.
    destruct (dailyStats s !! dayOf ts) as [r0|] eqn:Hr0; simpl.
    + destruct (Hs _ _ Hr0) as [-> ->].
      destruct b1, b2; try done; split; try done; lia.
    + destruct b1, b2; try done; split; try done; lia.
Qed.

(** *** Tokens *)

Lemma tokensLinked_step s s' : step s s' → tokensLinked s → tokensLinked s'.
Proof.
  unfold tokensLinked at 1.
  destruct 1 as [s s' Hl Hmd|a s|a k u s Hk _ _ Hv|a t v ts s|ts b1 b2 s _
                 |ts b1 b2 s Hflags|id t s Hnone Hsup Hid Hmeta Hex
                 |id t amount s Ht| | | | | ]; intros Hs; try exact Hs.
  - destruct Hl as (Ht & _). intros id t. rewrite Ht. intros Hid.
    rewrite Hmd by by rewrite Hid. by apply Hs.
  - unfold tokensLinked. proj_cbn. by autorewrite with store.
  - unfold tokensLinked. rewrite tokens_updateUserBalance.
    by rewrite (proj1 (updateUserBalance_frame2 a t v ts s)).
  - intros id' t'. proj_cbn. rewrite lookup_insert.
    case_decide as Hk; [|apply Hs]. subst id'. by intros [= <-].
  - intros id' t'. proj_cbn. rewrite lookup_insert.
    case_decide as Hk; [|apply Hs]. subst id'. intros [= <-].
    destruct (Hs _ _ Ht) as (? & ? & ?). done.
Qed.

(** *** What persists *)

Lemma withSupply_id t : withSupply (currentSupply t) t = t.
Proof. by destruct t. Qed.

Lemma persists_refl s : persists s s.
Proof.
  repeat split; eauto.
  intros id t Ht. exists (currentSupply t). by rewrite withSupply_id.
Qed.

Lemma persists_trans s1 s2 s3 :
  persists s1 s2 → persists s2 s3 → persists s1 s3.
Proof.
  intros (Hu1 & Ht1 & Hi1) (Hu2 & Ht2 & Hi2). repeat split.
  - intros a u Hu. destruct (Hu1 _ _ Hu) as (u' & Hu' & Ha).
    destruct (Hu2 _ _ Hu') as (u'' & Hu'' & Ha'). exists u''.
    split; [done|congruence].
  - intros id t Ht. destruct (Ht1 _ _ Ht) as (c & Ht').
    destruct (Ht2 _ _ Ht') as (c' & Ht''). exists c'. by rewrite Ht''.
  - intros k item Hi. destruct (Hi1 _ _ Hi) as (i' & Hi' & Hf).
    destruct (Hi2 _ _ Hi') as (i'' & Hi'' & Hf'). exists i''.
    split; [done|congruence].
Qed.

Lemma persists_step s s' : step s s' → persists s s'.
Proof.
  destruct 1 as [s s' Hl _|a s|a k u s Hk Ha _ _|a t v ts s|ts b1 b2 s _
                 |ts b1 b2 s _|id t s Hnone _ _ _ _
                 |id t amount s Ht|key item s Hitem| | | | ];
    try exact (persists_refl s);
    destruct (persists_refl s) as (Hu0 & Ht0 & Hi0).
  - destruct Hl as (Ht & _ & Hu & _ & _ & _ & _ & Hi & _).
    unfold persists. rewrite Ht, Hu, Hi. apply persists_refl.
  - unfold persists. proj_cbn. autorewrite with store.
    split; [|done].
    intros a' u Hu. rewrite lookup_insert. case_decide as Ha; [|eauto].
    subst a'. eexists. split; [done|].
    by rewrite (proj1 (proj2 (knownUser_fields a s)) u Hu).
  - unfold persists. proj_cbn. split; [|done].
    intros a' u' Hu. rewrite lookup_insert. case_decide as Ha'; [|eauto].
    subst a'. eexists. split; [done|]. congruence.
  - unfold persists. rewrite users_updateUserBalance,
      tokens_updateUserBalance, inventory_updateUserBalance.
    split; [|done].
    intros a' u Hu. rewrite lookup_insert. case_decide as Ha; [|eauto].
    subst a'. eexists. split; [done|]. simpl.
    by rewrite (proj1 (proj2 (knownUser_fields a s)) u Hu).
  - unfold persists. proj_cbn. split; [done|]. split; [|done].
    intros id' t' Ht'. rewrite lookup_insert. case_decide as Hid.
    + congruence.
    + exists (currentSupply t'). by rewrite withSupply_id.
  - unfold persists. proj_cbn. split; [done|]. split; [|done].
    intros id' t' Ht'. rewrite lookup_insert. case_decide as Hid.
    + subst id'. rewrite Ht in Ht'. injection Ht' as <-. by eexists.
    + exists (currentSupply t'). by rewrite withSupply_id.
  - unfold persists. proj_cbn. split; [done|]. split; [done|].
    intros k' item' Hk'. rewrite lookup_insert. case_decide as Hkey; [|eauto].
    subst k'. eexists. split; [done|]. eauto.
Qed.

(** X1.  In every store the handlers can reach, the user counter of the
    global statistics is the number of User records. *)
Theorem user_counter_counts_users s :
  reachable s → totalUsers (statsOf s) = Z.of_nat (size (users s)).
Proof.
  revert s. apply (reachable_invariant usersCounted); [done|].
  apply usersCounted_step.
Qed.

(** X2.  In every reachable store a User record sits under its own
    address, and its first-interaction time is 0: the handlers never set
    it. *)
Theorem first_interaction_never_set s a u :
  reachable s → users s !! a = Some u →
  u_address u = a ∧ firstInteraction u = 0.
Proof.
  intros Hs. revert a u. change (usersKeyed s). revert s Hs.
  apply reachable_invariant; [done|]. apply usersKeyed_step.
Qed.

(** X3.  In every reachable store the running inventory value of a user is
    the sum of the balances of the balance records of that user (0 for an
    address with no User record). *)
Theorem inventory_value_is_balance_sum s a :
  reachable s →
  userSum a (balances s)
  = from_option totalInventoryValue 0 (users s !! a).
Proof.
  intros Hs. cut (valueTallied s); [by intros [_ H]|]. revert s Hs.
  apply reachable_invariant; [|apply valueTallied_step].
  split; [done|]. intros a'. apply map_fold_empty.
Qed.

(** X4.  In every reachable store a daily bucket sits under its own day
    number and its active-user counter equals the creations plus the mints
    counted that day: it counts events, not users. *)
Theorem daily_active_users_counts_events s d r :
  reachable s → dailyStats s !! d = Some r →
  ds_date r = d ∧ activeUsers r = tokensCreated r + tokensMinted r.
Proof.
  intros Hs. revert d r. change (dailyTallied s). revert s Hs.
  apply reachable_invariant; [done|]. apply dailyTallied_step.
Qed.

Lemma tokensLinked_reachable s : reachable s → tokensLinked s.
Proof.
  revert s. apply reachable_invariant; [done|]. apply tokensLinked_step.
Qed.

(** X5.  In every reachable store a Token sits under its own token id and
    refers to a metadata record of that id, which is in the store, is
    linked back to the token, and has the name, description, image and
    reward id that the Token carries. *)
Theorem token_copies_its_metadata s id t :
  reachable s → tokens s !! id = Some t →
  t_tokenId t = id ∧ t_metadata t = Some id
  ∧ ∃ metadata, tokenMetadata s !! id = Some metadata
                ∧ md_token metadata = id
                ∧ t_name t = md_name metadata
                ∧ t_description t = md_description metadata
                ∧ t_image t = md_image metadata
                ∧ t_rewardId t = md_rewardId metadata.
Proof.
  intros Hs Ht.
  destruct (tokensLinked_reachable s Hs id t Ht)
    as (Hid & Hmeta & metadata & Hmd & Htoken & Hfields).
  repeat split; [done..|]. exists metadata. repeat split; try apply Hfields.
  - done.
  - by rewrite Htoken.
Qed.

(** X6.  An applied event deletes no User, Token or inventory item: the
    User keeps its address, the Token every field but its current supply,
    the inventory item the time it was first acquired. *)
Theorem entities_persist net e s s' :
  applyEvent net e s = Some s' →
  (∀ a u, users s !! a = Some u →
          ∃ u', users s' !! a = Some u' ∧ u_address u' = u_address u)
  ∧ (∀ id t, tokens s !! id = Some t →
             ∃ supply, tokens s' !! id = Some (withSupply supply t))
  ∧ (∀ k item, inventory s !! k = Some item →
               ∃ item', inventory s' !! k = Some item'
                        ∧ ii_firstAcquired item' = ii_firstAcquired item).
Proof.
  intros H. apply steps_applyEvent in H. change (persists s s').
  induction H as [|s1 s2 s3 Hstep _ IH]; [apply persists_refl|].
  eapply persists_trans; [by apply persists_step|done].
Qed.

Ltac busy_reachable :=
  eapply (applyEvents_reachable offline
            [create42; mint42; move42; grantBob 4; batchMint]);
  [constructor|apply some_default; vm_compute; reflexivity].

Lemma user_counter_counts_users_witness :
  totalUsers (statsOf busyStore) = Z.of_nat (size (users busyStore)).
Proof. apply user_counter_counts_users. busy_reachable. Defined.

Lemma first_interaction_never_set_witness :
  ∃ u, users busyStore !! bob = Some u
       ∧ u_address u = bob ∧ firstInteraction u = 0.
Proof.
  eexists. split; [vm_compute; reflexivity|].
  apply (first_interaction_never_set busyStore bob);
    [busy_reachable|vm_compute; reflexivity].
Defined.

Lemma inventory_value_is_balance_sum_witness :
  userSum bob (balances busyStore)
  = from_option totalInventoryValue 0 (users busyStore !! bob).
Proof. apply inventory_value_is_balance_sum. busy_reachable. Defined.

Lemma daily_active_users_counts_events_witness :
  ∃ r, dailyStats busyStore !! dayOf 1700000001 = Some r
       ∧ ds_date r = dayOf 1700000001
       ∧ activeUsers r = tokensCreated r + tokensMinted r.
Proof.
  eexists. split; [vm_compute; reflexivity|].
  apply (daily_active_users_counts_events busyStore);
    [busy_reachable|vm_compute; reflexivity].
Defined.

Lemma token_copies_its_metadata_witness :
  ∃ t, tokens busyStore !! 42 = Some t
       ∧ t_tokenId t = 42 ∧ t_metadata t = Some 42
       ∧ ∃ metadata, tokenMetadata busyStore !! 42 = Some metadata
                     ∧ md_token metadata = 42
                     ∧ t_name t = md_name metadata
                     ∧ t_description t = md_description metadata
                     ∧ t_image t = md_image metadata
                     ∧ t_rewardId t = md_rewardId metadata.
Proof.
  eexists. split; [vm_compute; reflexivity|].
  apply (token_copies_its_metadata busyStore 42);
    [busy_reachable|vm_compute; reflexivity].
Defined.

Lemma entities_persist_witness :
  ∃ supply,
    tokens (default emptyStore (applyEvent offline mint42 createdStore)) !! 42
    = Some (withSupply supply token42).
Proof.
  apply (proj1 (proj2 (entities_persist offline mint42 createdStore
                         (default emptyStore
                            (applyEvent offline mint42 createdStore))
                         eq_refl)) 42 token42).
  vm_compute. reflexivity.
Defined.

(** ** Batches and single transfers *)

Lemma transferBatchLoop_None event operator from to ids : ∀ values s,
  transferBatchLoop event operator from to ids values s = None
  ↔ (length values < length ids)%nat.
Proof.
  induction ids as [|id ids IH]; intros [|v values] s;
    cbn [transferBatchLoop length].
  - split; [done|lia].
  - split; [done|lia].
  - split; [lia|done].
  - rewrite IH. lia.
Qed.

(** X7.  A batch transfer aborts exactly when its values array is shorter
    than its ids array; surplus values are ignored. *)
Theorem batch_aborts_on_short_values event operator from to ids values s :
  handleTransferBatch event operator from to ids values s = None
  ↔ (length values < length ids)%nat.
Proof.
  rewrite <- (transferBatchLoop_None event operator from to ids values s).
  unfold handleTransferBatch.
  by destruct (transferBatchLoop event operator from to ids values s).
Qed.

Lemma sameButJournal_refl s : sameButJournal s s.
Proof. by repeat split. Qed.

Lemma sameButJournal_journal f s : sameButJournal s (with_allEvents f s).
Proof. by repeat split. Qed.

Lemma sameButJournal_trans s1 s2 s3 :
  sameButJournal s1 s2 → sameButJournal s2 s3 → sameButJournal s1 s3.
Proof. unfold sameButJournal. intros H1 H2. intuition congruence. Qed.

Lemma sameButJournal_sym s1 s2 : sameButJournal s1 s2 → sameButJournal s2 s1.
Proof. unfold sameButJournal. intros H1. intuition congruence. Qed.

Lemma sameButJournal_eq s s' :
  sameButJournal s s' → s' = with_allEvents (λ _, allEvents s') s.
Proof.
  destruct s as [tk md pr at' tc tm us bl iv rc gs ds ae],
    s' as [tk' md' pr' at'' tc' tm' us' bl' iv' rc' gs' ds' ae'].
  unfold sameButJournal. proj_cbn.
  intros (-> & -> & -> & -> & -> & -> & -> & -> & -> & -> & -> & ->).
  reflexivity.
Qed.

Lemma registerUser_journal a f s :
  registerUser a (with_allEvents f s) = with_allEvents f (registerUser a s).
Proof. unfold registerUser. proj_cbn. by destruct (users s !! a). Qed.

Lemma knownUser_journal a f s : knownUser a (with_allEvents f s) = knownUser a s.
Proof. reflexivity. Qed.

Lemma updateUserBalance_journal a t v ts f s :
  updateUserBalance a t v ts (with_allEvents f s)
  = with_allEvents f (updateUserBalance a t v ts s).
Proof.
  unfold updateUserBalance. proj_cbn.
  destruct (balances s !! (a, t)); cbn [balance]; case_decide;
    rewrite !getOrCreateUser_eq; cbn beta iota;
    unfold knownUser, registerUser; proj_cbn;
    by destruct (users s !! a).
Qed.

Lemma with_users_journal g f s :
  with_users g (with_allEvents f s) = with_allEvents f (with_users g s).
Proof. reflexivity. Qed.
Lemma with_tokens_journal g f s :
  with_tokens g (with_allEvents f s) = with_allEvents f (with_tokens g s).
Proof. reflexivity. Qed.
Lemma with_tokenMints_journal g f s :
  with_tokenMints g (with_allEvents f s)
  = with_allEvents f (with_tokenMints g s).
Proof. reflexivity. Qed.
Lemma with_inventory_journal g f s :
  with_inventory g (with_allEvents f s)
  = with_allEvents f (with_inventory g s).
Proof. reflexivity. Qed.
Lemma updateGlobalStats_journal ts b1 b2 b3 f s :
  updateGlobalStats ts b1 b2 b3 (with_allEvents f s)
  = with_allEvents f (updateGlobalStats ts b1 b2 b3 s).
Proof. reflexivity. Qed.
Lemma updateDailyStats_journal ts b1 b2 f s :
  updateDailyStats ts b1 b2 (with_allEvents f s)
  = with_allEvents f (updateDailyStats ts b1 b2 s).
Proof. reflexivity. Qed.

Create Rewrite HintDb journal.
#[local] Hint Rewrite with_users_journal with_tokens_journal
  with_tokenMints_journal with_inventory_journal updateGlobalStats_journal
  updateDailyStats_journal registerUser_journal knownUser_journal
  updateUserBalance_journal : journal.

Lemma sameButJournal_rewritten g h f s :
  sameButJournal (with_allEvents g s) (with_allEvents h (with_allEvents f s)).
Proof. by repeat split. Qed.

Lemma handleTokenMint_journal to tokenId amount operator event f s :
  sameButJournal (handleTokenMint to tokenId amount operator event s)
    (handleTokenMint to tokenId amount operator event (with_allEvents f s)).
Proof.
  unfold handleTokenMint. rewrite !getOrCreateUser_eq. cbn beta iota.
  autorewrite with journal. proj_cbn. autorewrite with store.
  destruct (tokens s !! tokenId) as [t|]; autorewrite with journal; proj_cbn;
    (destruct (inventory _ !! (to, tokenId)); cbn beta iota;
     rewrite !getOrCreateUser_eq; cbn beta iota;
     autorewrite with journal; apply sameButJournal_rewritten).
Qed.

Lemma updateUserBalance_blind a t v ts s s' :
  sameButJournal s s' →
  sameButJournal (updateUserBalance a t v ts s)
    (updateUserBalance a t v ts s').
Proof.
  intros H. rewrite (sameButJournal_eq s s' H), updateUserBalance_journal.
  apply sameButJournal_journal.
Qed.

Lemma handleTokenMint_blind to tokenId amount operator event s s' :
  sameButJournal s s' →
  sameButJournal (handleTokenMint to tokenId amount operator event s)
    (handleTokenMint to tokenId amount operator event s').
Proof.
  intros H. rewrite (sameButJournal_eq s s' H).
  apply handleTokenMint_journal.
Qed.

Lemma transferBatchLoop_singles event operator from to ids : ∀ values s sJ,
  sameButJournal s sJ → (length ids ≤ length values)%nat →
  ∃ s', transferBatchLoop event operator from to ids values s = Some s'
        ∧ sameButJournal s'
            (foldl (λ s p,
                      handleTransferSingle event operator from to p.1 p.2 s)
               sJ (zip ids values)).
Proof.
  induction ids as [|id ids IH]; intros [|v values] s sJ Hs Hlen;
    cbn [transferBatchLoop length zip zip_with foldl] in *; try lia.
  - by exists s.
  - by exists s.
  - apply IH; [|lia]. unfold handleTransferSingle. cbn [fst snd].
    case_decide.
    + by apply handleTokenMint_blind.
    + eapply sameButJournal_trans; [|apply sameButJournal_journal].
      by do 2 apply updateUserBalance_blind.
Qed.

(** X8.  A batch transfer with a value for every id leaves the store that
    its elements leave when they are applied in order as single transfers
    of the same event, operator, sender and receiver; only the journal
    differs. *)
Theorem batch_is_its_single_transfers event operator from to ids values s :
  (length ids ≤ length values)%nat →
  ∃ s', handleTransferBatch event operator from to ids values s = Some s'
        ∧ sameButJournal s'
            (foldl (λ s p,
                      handleTransferSingle event operator from to p.1 p.2 s)
               s (zip ids values)).
Proof.
  intros Hlen.
  destruct (transferBatchLoop_singles event operator from to ids values s s
              (sameButJournal_refl s) Hlen) as (s1 & Hloop & Hsame).
  unfold handleTransferBatch. rewrite Hloop. cbn [mbind option_bind].
  eexists. split; [done|].
  eapply sameButJournal_trans; [|exact Hsame].
  apply sameButJournal_sym, sameButJournal_journal.
Qed.

Lemma batch_is_its_single_transfers_witness :
  ∃ s', handleTransferBatch (eventAt 8 0 alice) alice ZERO_ADDRESS bob
          [1; 2] [10; 20] createdStore = Some s'
        ∧ sameButJournal s'
            (handleTransferSingle (eventAt 8 0 alice) alice ZERO_ADDRESS bob
               2 20
               (handleTransferSingle (eventAt 8 0 alice) alice ZERO_ADDRESS
                  bob 1 10 createdStore)).
Proof.
  apply (batch_is_its_single_transfers (eventAt 8 0 alice) alice ZERO_ADDRESS
           bob [1; 2] [10; 20] createdStore).
  simpl. lia.
Defined.

(** ** Plain transfers and mints *)

Lemma held_balanceUpdate a t d ts m k :
  from_option balance 0 (balanceUpdate a t d ts m !! k)
  = from_option balance 0 (m !! k) + (if decide (k = (a, t)) then d else 0).
Proof.
  unfold balanceUpdate. case_decide as Hz.
  - rewrite lookup_delete. repeat case_decide; subst; simpl; try lia; congruence.
  - rewrite lookup_insert. repeat case_decide; subst; simpl; try lia; congruence.
Qed.

(** X9.  A single transfer that is not a mint moves the amount from the
    holding of the sender to the holding of the receiver with no check of
    what the sender holds (a holding may turn negative), whatever the
    receiver is (the zero address included), and leaves every Token (its
    supply included), the inventory, the mint records and the daily
    statistics as they are. *)
Theorem plain_transfer_holdings event operator from to id value s :
  from ≠ ZERO_ADDRESS →
  let s' := handleTransferSingle event operator from to id value s in
  (∀ u t, held s' u t
          = held s u t
            + (if decide ((u, t) = (to, id)) then value else 0)
            - (if decide ((u, t) = (from, id)) then value else 0))
  ∧ tokens s' = tokens s ∧ inventory s' = inventory s
  ∧ tokenMints s' = tokenMints s ∧ dailyStats s' = dailyStats s.
Proof.
  intros Hfrom s'. subst s'. split.
  - intros u t. unfold held.
    rewrite balances_handleTransferSingle, decide_False by done.
    rewrite !held_balanceUpdate. repeat case_decide; lia.
  - rewrite tokens_handleTransferSingle, decide_False by done.
    unfold handleTransferSingle. rewrite decide_False by done. proj_cbn.
    rewrite !inventory_updateUserBalance, !tokenMints_updateUserBalance.
    repeat split.
    by rewrite !(proj1 (proj2 (proj2 (proj2
                   (updateUserBalance_frame _ _ _ _ _))))).
Qed.

Lemma plain_transfer_holdings_witness :
  held (handleTransferSingle (eventAt 5 0 bob) bob bob ZERO_ADDRESS 42 4
          ledgerStore) bob 42 = held ledgerStore bob 42 + 0 - 4
  ∧ tokens (handleTransferSingle (eventAt 5 0 bob) bob bob ZERO_ADDRESS 42 4
              ledgerStore) = tokens ledgerStore.
Proof.
  pose proof (plain_transfer_holdings (eventAt 5 0 bob) bob bob ZERO_ADDRESS
                42 4 ledgerStore) as H.
  destruct H as (Hheld & Htokens & _).
  - vm_compute. discriminate.
  - split; [exact (Hheld bob 42)|exact Htokens].
Defined.

(** *** Supply statistics *)

Lemma supplyIdle_step s s' : step s s' → supplyIdle s → supplyIdle s'.
Proof.
  unfold supplyIdle at 1.
  destruct 1 as [s s' Hl _|a s|a k u s Hk _ _ Hv|a t v ts s|ts b1 b2 s _
                 |ts b1 b2 s Hflags| | | | | | | ]; intros [Hg Hd];
    try exact (conj Hg Hd).
  - destruct Hl as (_ & _ & _ & Hgs & Hds & _). unfold supplyIdle.
    by rewrite (statsOf_ext _ _ Hgs), Hds.
  - unfold supplyIdle. split.
    + rewrite (statsOf_ext (registerUser a s) _) by reflexivity.
      unfold registerUser. destruct (users s !! a); [done|].
      by rewrite statsOf_updateGlobalStats.
    + proj_cbn. by autorewrite with store.
  - unfold supplyIdle.
    rewrite (proj1 (proj2 (proj2 (proj2
               (updateUserBalance_frame a t v ts s))))).
    split; [|done].
    rewrite (statsOf_ext _ _ (globalStats_updateUserBalance a t v ts s)).
    unfold registerUser. destruct (users s !! a); [done|].
    by rewrite statsOf_updateGlobalStats.
  - split; [exact Hg|].
    intros d r. cbn [dailyStats updateDailyStats with_dailyStats].
    rewrite lookup_insert. case_decide as Hday; [|apply Hd].
    subst d. intros [= <-]. simpl.
    destruct (dailyStats s !! dayOf ts) as [r0|] eqn:Hr0; simpl; eauto.
Qed.

(** X10.  No handler maintains the supply statistics: in every reachable
    store the total supply of the global statistics is 0 and so is the
    supply change of every daily bucket, whatever was minted. *)
Theorem supply_statistics_never_move s :
  reachable s →
  totalSupply (statsOf s) = 0
  ∧ ∀ d r, dailyStats s !! d = Some r → totalSupplyChange r = 0.
Proof.
  intros Hs. change (supplyIdle s). revert s Hs.
  apply reachable_invariant; [done|]. apply supplyIdle_step.
Qed.

Lemma supply_statistics_never_move_witness :
  totalSupply (statsOf busyStore) = 0
  ∧ from_option totalSupplyChange 1
      (dailyStats busyStore !! dayOf 1700000002) = 0.
Proof.
  destruct (supply_statistics_never_move busyStore) as [Hg Hd];
    [busy_reachable|].
  split; [exact Hg|].
  destruct (dailyStats busyStore !! dayOf 1700000002) as [r|] eqn:Hr;
    [exact (Hd _ r Hr)|vm_compute in Hr; discriminate Hr].
Defined.

(** X11.  The role name reads the role as hex text and compares it with a
    20-byte constant for the default admin role: a 32-byte role (66
    characters of hex) is never named DEFAULT_ADMIN, the all-zero admin
    role of the contract included. *)
Theorem role_name_of_bytes32 role :
  String.length role = 66%nat →
  getRoleName role
  = if decide (role = MINTER_ROLE) then "MINTER" else "UNKNOWN".
Proof.
  intros Hlen. unfold getRoleName. case_decide; [done|].
  case_decide as Hadmin; [|done]. by rewrite Hadmin in Hlen.
Qed.

Lemma role_name_of_bytes32_witness :
  getRoleName
    "0x0000000000000000000000000000000000000000000000000000000000000000"
  = "UNKNOWN".
Proof.
  apply (role_name_of_bytes32
    "0x0000000000000000000000000000000000000000000000000000000000000000").
  reflexivity.
Defined.

Lemma knownUser_ext a s s' : users s' = users s → knownUser a s' = knownUser a s.
Proof. unfold knownUser. by intros ->. Qed.

Lemma knownUser_inserted a u s : knownUser a (with_users (insert a u) s) = u.
Proof. unfold knownUser. proj_cbn. by rewrite lookup_insert_eq. Qed.

Lemma users_handleTokenMint to tokenId amount operator event s :
  users (handleTokenMint to tokenId amount operator event s)
  = <[to :=
        {| u_address := u_address (knownUser to s);
           totalTokensCreated := totalTokensCreated (knownUser to s);
           totalTokensMinted := totalTokensMinted (knownUser to s) + amount;
           firstInteraction := firstInteraction (knownUser to s);
           lastInteraction := block_timestamp event;
           totalInventoryValue :=
             totalInventoryValue (knownUser to s) + amount |}]> (users s).
Proof.
  unfold handleTokenMint. rewrite getOrCreateUser_eq. cbn beta iota.
  set (s1 := with_users <[to:=knownUser to s]> (registerUser to s)).
  set (mint := Build_TokenMint _ _ _ _ _ _ _ _ _ _ _ _ _ _).
  set (s3 := match tokens s1 !! tokenId with
             | Some t => _ | None => with_tokenMints _ s1 end).
  assert (users s3 = users s1) as Hs3.
  { subst s3. by destruct (tokens s1 !! tokenId). }
  set (s4 := updateUserBalance to tokenId amount (block_timestamp event) s3).
  assert (users s4 !! to
          = Some {| u_address := u_address (knownUser to s);
                    totalTokensCreated := totalTokensCreated (knownUser to s);
                    totalTokensMinted := totalTokensMinted (knownUser to s);
                    firstInteraction := firstInteraction (knownUser to s);
                    lastInteraction := block_timestamp event;
                    totalInventoryValue :=
                      totalInventoryValue (knownUser to s) + amount |})
    as Hs4.
  { subst s4. rewrite users_updateUserBalance, lookup_insert_eq.
    rewrite (knownUser_ext to s1 s3 Hs3). unfold s1.
    by rewrite knownUser_inserted. }
  assert (users s4 = <[to := knownUser to s4]> (users s)) as Hu4.
  { unfold knownUser at 1. rewrite Hs4. simpl. subst s4.
    rewrite users_updateUserBalance, Hs3.
    rewrite (knownUser_ext to s1 s3 Hs3). unfold s1.
    rewrite knownUser_inserted. proj_cbn. autorewrite with store.
    by rewrite insert_insert_eq. }
  assert (knownUser to s4
          = {| u_address := u_address (knownUser to s);
               totalTokensCreated := totalTokensCreated (knownUser to s);
               totalTokensMinted := totalTokensMinted (knownUser to s);
               firstInteraction := firstInteraction (knownUser to s);
               lastInteraction := block_timestamp event;
               totalInventoryValue :=
                 totalInventoryValue (knownUser to s) + amount |}) as Hk4.
  { unfold knownUser at 1. by rewrite Hs4. }
  clearbody s4. clear Hs4.
  destruct (inventory s4 !! (to, tokenId)) as [item|]; cbn beta iota.
  - rewrite getOrCreateUser_eq. cbn beta iota.
    rewrite (knownUser_ext to s4 (with_inventory _ s4)) by done.
    store_cbn. cbn [users updateGlobalStats with_globalStats].
    repeat (progress (proj_cbn; autorewrite with store)).
    rewrite Hu4, Hk4, !insert_insert_eq. done.
  - rewrite !getOrCreateUser_eq. cbn beta iota.
    rewrite (knownUser_ext to s4 (with_inventory _ _))
      by (proj_cbn; autorewrite with store; rewrite Hu4;
          by rewrite insert_insert_eq).
    store_cbn. cbn [users updateGlobalStats with_globalStats].
    repeat (progress (proj_cbn; autorewrite with store)).
    rewrite Hu4, Hk4, !insert_insert_eq. done.
Qed.

Lemma totalMints_registerUser address s :
  totalMints (statsOf (registerUser address s)) = totalMints (statsOf s).
Proof.
  unfold registerUser. destruct (users s !! address); [done|].
  by rewrite statsOf_updateGlobalStats.
Qed.

Lemma totalMints_handleTokenMint to tokenId amount operator event s :
  totalMints (statsOf (handleTokenMint to tokenId amount operator event s))
  = totalMints (statsOf s) + 1.
Proof.
  unfold handleTokenMint. rewrite getOrCreateUser_eq. cbn beta iota.
  set (s1 := with_users <[to:=knownUser to s]> (registerUser to s)).
  set (mint := Build_TokenMint _ _ _ _ _ _ _ _ _ _ _ _ _ _).
  set (s3 := match tokens s1 !! tokenId with
             | Some t => _ | None => with_tokenMints _ s1 end).
  assert (globalStats s3 = globalStats (registerUser to s)) as Hs3.
  { subst s3. by destruct (tokens s1 !! tokenId). }
  assert (users s3 !! to = Some (knownUser to s)) as Hu3.
  { subst s3 s1. destruct (tokens _ !! tokenId); proj_cbn;
      by rewrite lookup_insert_eq. }
  set (s4 := updateUserBalance to tokenId amount (block_timestamp event) s3).
  assert (totalMints (statsOf s4) = totalMints (statsOf s)) as Hs4.
  { subst s4.
    rewrite (statsOf_ext _ _ (globalStats_updateUserBalance to tokenId amount
                                (block_timestamp event) s3)).
    rewrite registerUser_known by by rewrite Hu3.
    by rewrite (statsOf_ext _ _ Hs3), totalMints_registerUser. }
  assert (is_Some (users s4 !! to)) as Hu4.
  { subst s4. by rewrite users_updateUserBalance, lookup_insert_eq. }
  clearbody s4.
  destruct (inventory s4 !! (to, tokenId)) as [item|]; cbn beta iota;
    rewrite !getOrCreateUser_eq; cbn beta iota.
  - rewrite (statsOf_ext
               (updateGlobalStats (block_timestamp event) false true false
                  (registerUser to (with_inventory _ s4))) _)
      by reflexivity.
    rewrite statsOf_updateGlobalStats. cbn [totalMints]. f_equal.
    rewrite (statsOf_ext (registerUser to (with_inventory _ _)) _)
      by reflexivity.
    rewrite totalMints_registerUser.
    by rewrite (statsOf_ext s4 (with_inventory _ s4)), Hs4.
  - rewrite (statsOf_ext
               (updateGlobalStats (block_timestamp event) false true false
                  (registerUser to (with_inventory _ _))) _)
      by reflexivity.
    rewrite statsOf_updateGlobalStats. cbn [totalMints]. f_equal.
    rewrite (statsOf_ext (registerUser to (with_inventory _ _)) _)
      by reflexivity.
    rewrite totalMints_registerUser.
    rewrite (statsOf_ext (registerUser to s4) (with_inventory _ _))
      by reflexivity.
    by rewrite totalMints_registerUser, Hs4.
Qed.

Lemma inventory_handleTokenMint to tokenId amount operator event s :
  ∃ item,
    inventory (handleTokenMint to tokenId amount operator event s)
    = <[(to, tokenId) := item]> (inventory s)
    ∧ ii_balance item
      = from_option ii_balance 0 (inventory s !! (to, tokenId)) + amount
    ∧ ii_firstAcquired item
      = from_option ii_firstAcquired (block_timestamp event)
          (inventory s !! (to, tokenId))
    ∧ ii_lastAcquired item = block_timestamp event.
Proof.
  unfold handleTokenMint. rewrite getOrCreateUser_eq. cbn beta iota.
  set (s1 := with_users <[to:=knownUser to s]> (registerUser to s)).
  set (mint := Build_TokenMint _ _ _ _ _ _ _ _ _ _ _ _ _ _).
  set (s3 := match tokens s1 !! tokenId with
             | Some t => _ | None => with_tokenMints _ s1 end).
  assert (inventory s3 = inventory s) as Hs3.
  { subst s3 s1. destruct (tokens _ !! tokenId); proj_cbn;
      by autorewrite with store. }
  set (s4 := updateUserBalance to tokenId amount (block_timestamp event) s3).
  assert (inventory s4 = inventory s) as Hs4.
  { subst s4. by rewrite inventory_updateUserBalance. }
  clearbody s4. clear Hs3. clearbody s3.
  rewrite Hs4.
  destruct (inventory s !! (to, tokenId)) as [item|]; cbn beta iota;
    rewrite !getOrCreateUser_eq; cbn beta iota;
    store_simpl; rewrite ?Hs4; eexists; (split; [reflexivity|]); simpl;
    repeat split; lia.
Qed.

(** X12.  What a mint leaves for the receiver besides the balance: the
    inventory item of the receiver and the token grows by the amount (it is
    created at 0 first, stamped with the time of the event as first
    acquisition), the User has the amount added both to its minted total
    and to its inventory value, and the mint counter of the global
    statistics goes up by one whatever the amount.  No other inventory item
    changes. *)
Theorem mint_updates_inventory_and_user to tokenId amount operator event s :
  let s' := handleTokenMint to tokenId amount operator event s in
  (∃ item, inventory s' !! (to, tokenId) = Some item
     ∧ ii_balance item
       = from_option ii_balance 0 (inventory s !! (to, tokenId)) + amount
     ∧ ii_firstAcquired item
       = from_option ii_firstAcquired (block_timestamp event)
           (inventory s !! (to, tokenId))
     ∧ ii_lastAcquired item = block_timestamp event)
  ∧ (∃ u, users s' !! to = Some u
     ∧ totalTokensMinted u
       = from_option totalTokensMinted 0 (users s !! to) + amount
     ∧ totalInventoryValue u
       = from_option totalInventoryValue 0 (users s !! to) + amount
     ∧ lastInteraction u = block_timestamp event)
  ∧ totalMints (statsOf s') = totalMints (statsOf s) + 1
  ∧ (∀ k, k ≠ (to, tokenId) → inventory s' !! k = inventory s !! k).
Proof.
  intros s'. subst s'.
  destruct (inventory_handleTokenMint to tokenId amount operator event s)
    as (item & -> & Hitem).
  rewrite users_handleTokenMint, totalMints_handleTokenMint.
  split; [exists item; by rewrite lookup_insert_eq|].
  split.
  - eexists. split; [apply lookup_insert_eq|]. simpl. unfold knownUser.
    by destruct (users s !! to).
  - split; [done|]. intros k Hk. by rewrite lookup_insert_ne.
Qed.

(** ** The metadata resolver *)

Lemma retrieve_nonempty net attempt uri content :
  retrieve net attempt uri = Some content → isFalsy (Some uri) = false.
Proof. destruct uri; [done|]. intros _. by apply bool_decide_eq_false. Qed.

(** X13.  A creation event for a new token aborts, leaving nothing of the
    event in the store, when the document retrieved for the token parses as
    JSON but is not an object, or is an object whose name is not a
    string. *)
Theorem malformed_document_aborts_creation net event tokenId tokenType
    category subCategory s uri document :
  tokens s !! tokenId = None →
  try_uri net tokenId = Some uri →
  retrieve net 0 uri ≫= try_fromBytes net = Some document →
  (toObject document = None
   ∨ ∃ entries name, document = JObject entries
                     ∧ get "name" entries = Some name
                     ∧ toString name = None) →
  fetchAndParseMetadata net tokenId (Some uri) s = None
  ∧ handleTokenCreated net event tokenId tokenType category subCategory s
    = None.
Proof.
  intros Hnew Huri Hdoc Hbad.
  assert (fetchAndParseMetadata net tokenId (Some uri) s = None) as Hfetch.
  { unfold fetchAndParseMetadata.
    destruct (retrieve net 0 uri) as [content|] eqn:Hcontent; [|done].
    rewrite (retrieve_nonempty _ _ _ _ Hcontent).
    rewrite Hdoc. unfold applyMetadataJson.
    destruct Hbad as [->|(entries & name & -> & Hname & Hstr)]; [done|].
    cbn [toObject mbind option_bind mret option_ret].
    by rewrite Hname; cbn [overrideWith]; rewrite Hstr. }
  split; [done|].
  unfold handleTokenCreated. by rewrite Hnew, Huri, Hfetch.
Qed.

Lemma malformed_document_aborts_creation_witness :
  fetchAndParseMetadata listed 42 (Some "ipfs://QmForge/42.json") emptyStore
  = None
  ∧ handleTokenCreated listed (eventAt 1 0 alice) 42 1 "Gear" "Helm"
      emptyStore = None.
Proof.
  apply (malformed_document_aborts_creation listed (eventAt 1 0 alice) 42 1
           "Gear" "Helm" emptyStore "ipfs://QmForge/42.json"
           (JArray [JNumber "1"; JNumber "2"])).
  - reflexivity.
  - reflexivity.
  - reflexivity.
  - left. reflexivity.
Defined.

Lemma firstSegment_app cid path :
  (∀ c, In c (String.list_ascii_of_string cid) → c ≠ "/"%char) →
  firstSegment (cid +:+ String "/"%char path) = cid.
Proof.
  induction cid as [|c cid IH]; intros Hcid; [done|].
  simpl.
  destruct (Ascii.eqb_spec c "/"%char) as [->|_].
  - by destruct (Hcid "/"%char); [left|].
  - rewrite IH; [done|]. intros c' Hc'. apply Hcid. by right.
Qed.

Lemma prefix_nil s : String.prefix "" s = true.
Proof. by destruct s. Qed.

Lemma ipfs_uri_shape rest :
  String.prefix "http" ("ipfs://" +:+ rest) = false
  ∧ String.prefix "ipfs://" ("ipfs://" +:+ rest) = true
  ∧ replace "ipfs://" "" ("ipfs://" +:+ rest) = rest.
Proof.
  repeat split; simpl; [apply prefix_nil|]. by rewrite prefix_nil.
Qed.

(** X14.  For a URI [ipfs://<cid>/<path>] the resolver of the mapping asks
    IPFS for the content of [<cid>] alone (the path inside it is dropped),
    while the fetcher class asks for [<cid>/<path>]. *)
Theorem ipfs_fetch_drops_path net attempt cid path :
  (∀ c, In c (String.list_ascii_of_string cid) → c ≠ "/"%char) →
  retrieve net attempt ("ipfs://" +:+ cid +:+ "/" +:+ path)
  = ipfs_cat net attempt cid
  ∧ ∀ tokenId s,
      fetchMetadata net tokenId ("ipfs://" +:+ cid +:+ "/" +:+ path) s
      = match ipfs_cat net 0 (cid +:+ "/" +:+ path) ≫= try_fromBytes net with
        | Some metadataJson =>
            metadataObj ← toObject metadataJson;
            parseMetadataObject tokenId metadataObj s
        | None => Some (createDefaultMetadata tokenId s)
        end.
Proof.
  intros Hcid.
  destruct (ipfs_uri_shape (cid +:+ "/" +:+ path)) as (Hhttp & Hipfs & Hhash).
  split.
  - unfold retrieve, startsWith. rewrite Hhttp, Hipfs, Hhash.
    f_equal. exact (firstSegment_app cid path Hcid).
  - intros tokenId s. unfold fetchMetadata, fetchFromIPFS, startsWith.
    by rewrite Hipfs, Hhash.
Qed.

Lemma ipfs_fetch_drops_path_witness :
  retrieve garbled 0 "ipfs://QmForge/42.json" = ipfs_cat garbled 0 "QmForge".
Proof.
  apply (ipfs_fetch_drops_path garbled 0 "QmForge" "42.json").
  intros c Hc. simpl in Hc.
  repeat (destruct Hc as [<-|Hc]; [discriminate|]). destruct Hc.
Defined.

(** X15.  When the document retrieved in the second pass of the resolver
    has a string [forge_id], that string is stored as the forge id of the
    properties and replaces the reward id of the metadata, while the
    reward id of the properties keeps what the first pass found (the
    [rewardId] of its document, or the empty string). *)
Theorem forge_id_replaces_reward_id net tokenId uri s first second forgeId
    rewardId metadata s' :
  retrieve net 0 uri ≫= try_fromBytes net = Some (JObject first) →
  retrieve net 1 uri ≫= try_fromBytes net = Some (JObject second) →
  overrideWith (get "rewardId" first) "" = Some rewardId →
  get "forge_id" second = Some (JString forgeId) →
  fetchAndParseMetadata net tokenId (Some uri) s = Some (metadata, s') →
  md_rewardId metadata = forgeId
  ∧ md_properties metadata = Some tokenId
  ∧ tokenProperties s' !! tokenId
    = Some {| tp_metadata := tokenId; tp_badgeType := ""; tp_createdBy := "";
              tp_rewardId := rewardId; tp_forgeId := forgeId |}.
Proof.
  intros Hfirst Hsecond Hreward Hforge. unfold fetchAndParseMetadata.
  destruct (retrieve net 0 uri) as [content|] eqn:Hcontent; [|done].
  rewrite (retrieve_nonempty _ _ _ _ Hcontent), Hfirst.
  unfold applyMetadataJson, forgeIdPass.
  rewrite Hsecond. cbn [toObject mbind option_bind]. rewrite Hforge.
  change (md_rewardId (defaultMetadata tokenId)) with "".
  rewrite Hreward.
  destruct (overrideWith (get "name" first) _); [|done].
  destruct (overrideWith (get "description" first) _); [|done].
  destruct (overrideWith (get "image" first) _); [|done].
  cbn [mbind option_bind].
  match goal with
  | |- (?o ≫= _) ≫= _ = _ → _ => destruct o; [|done]
  end.
  cbn [toString mbind option_bind]. intros H. injection H as <- <-.
  repeat split. proj_cbn. by rewrite lookup_insert_eq.
Qed.

Lemma forge_id_replaces_reward_id_witness :
  ∃ metadata s',
    fetchAndParseMetadata served 42 (Some "https://forge.example/42.json")
      emptyStore = Some (metadata, s')
    ∧ md_rewardId metadata = "F-7"
    ∧ md_properties metadata = Some 42
    ∧ tokenProperties s' !! 42
      = Some {| tp_metadata := 42; tp_badgeType := ""; tp_createdBy := "";
                tp_rewardId := ""; tp_forgeId := "F-7" |}.
Proof.
  eexists _, _. split; [vm_compute; reflexivity|].
  eapply (forge_id_replaces_reward_id served 42
            "https://forge.example/42.json" emptyStore).
  - reflexivity.
  - reflexivity.
  - reflexivity.
  - reflexivity.
  - vm_compute. reflexivity.
Defined.

Lemma saveAttributes_lookup tokenId attrArray : ∀ i0 s s',
  saveAttributes tokenId i0 attrArray s = Some s' →
  (∀ i, tokenAttributes s' !! (tokenId, i)
        = match (if decide (i0 ≤ i)%nat
                 then attrArray !! (i - i0)%nat ≫= attributeAt tokenId
                 else None) with
          | Some attribute => Some attribute
          | None => tokenAttributes s !! (tokenId, i)
          end)
  ∧ ∀ id i, id ≠ tokenId →
            tokenAttributes s' !! (id, i) = tokenAttributes s !! (id, i).
Proof.
  induction attrArray as [|attr attrArray IH]; intros i0 s s' H;
    cbn [saveAttributes] in H.
  - apply (inj Some) in H as <-. split; [|done].
    intros i. case_decide; by rewrite ?lookup_nil.
  - destruct attr as [| | | | |attrObj]; try done.
    cbn [toObject mbind option_bind] in H.
    match type of H with
    | ?o ≫= _ = _ => destruct o as [s1|] eqn:Hs1; [|done]
    end.
    cbn [mbind option_bind] in H. apply IH in H as [Hat Hother].
    assert (∀ k, tokenAttributes s1 !! k
                 = match (if decide (k = (tokenId, i0))
                          then attributeAt tokenId (JObject attrObj)
                          else None) with
                   | Some attribute => Some attribute
                   | None => tokenAttributes s !! k
                   end) as Hhere.
    { intros k. cbn [attributeAt].
      destruct (get "trait_type" attrObj) as [traitType|],
        (get "value" attrObj) as [value|];
        try (apply (inj Some) in Hs1 as <-; case_decide; try done;
             by repeat case_match).
      destruct traitType; cbn [toString mbind option_bind] in Hs1;
        try done.
      destruct value; cbn [toString mbind option_bind] in Hs1; try done.
      apply (inj Some) in Hs1 as <-. proj_cbn.
      rewrite lookup_insert. repeat case_decide; congruence. }
    split.
    + intros i. rewrite Hat, Hhere.
      destruct (decide (i = i0)) as [->|Hi].
      * rewrite decide_False by lia. rewrite !decide_True by (done || lia).
        by rewrite Nat.sub_diag.
      * rewrite (decide_False (P := (tokenId, i) = (tokenId, i0)))
          by congruence.
        destruct (decide (S i0 ≤ i)%nat) as [Hle|Hgt].
        -- rewrite decide_True by lia.
           by replace (i - i0)%nat with (S (i - S i0)) by lia.
        -- by rewrite decide_False by lia.
    + intros id i Hid. rewrite Hother, Hhere by done.
      by rewrite decide_False by congruence.
Qed.

(** X16.  The resolver stores the attributes of a document under the
    positions they have in its [attributes] array: an entry with a string
    trait type and a string value is stored under (token, position), an
    entry that lacks one of the two is skipped without shifting the
    positions of the entries after it, and the attributes of other tokens
    are not touched. *)
Theorem attributes_keep_their_positions tokenId attrArray s s' :
  saveAttributes tokenId 0 attrArray s = Some s' →
  (∀ i, tokenAttributes s' !! (tokenId, i)
        = match attrArray !! i ≫= attributeAt tokenId with
          | Some attribute => Some attribute
          | None => tokenAttributes s !! (tokenId, i)
          end)
  ∧ ∀ id i, id ≠ tokenId →
            tokenAttributes s' !! (id, i) = tokenAttributes s !! (id, i).
Proof.
  intros H. apply saveAttributes_lookup in H as [Hat Hother].
  split; [|done]. intros i. rewrite Hat, decide_True by lia.
  by rewrite Nat.sub_0_r.
Qed.

Lemma attributes_keep_their_positions_witness :
  tokenAttributes
    (default emptyStore
       (saveAttributes 42 0
          [JObject [("value", JString "orphan")];
           JObject [("trait_type", JString "Tier"); ("value", JString "3")]]
          emptyStore)) !! (42, 1%nat)
  = Some {| ta_metadata := 42; ta_traitType := "Tier"; ta_value := "3" |}.
Proof.
  apply (proj1 (attributes_keep_their_positions 42
                  [JObject [("value", JString "orphan")];
                   JObject [("trait_type", JString "Tier");
                            ("value", JString "3")]]
                  emptyStore _ eq_refl) 1%nat).
Defined.

(** ** The metadata data source and the fetcher class *)

(** X17.  On every store the event handlers can produce, a metadata request
    changes nothing, whatever the token and whatever the contract and the
    network answer: a Token of such a store already has its metadata. *)
Theorem metadata_request_changes_nothing net try_tokenURI tokenId s :
  reachable s →
  handleMetadataRequested net try_tokenURI tokenId s = Some s.
Proof.
  intros Hs. unfold handleMetadataRequested.
  destruct (tokens s !! tokenId) as [token|] eqn:Htoken; [|done].
  destruct (tokensLinked_reachable s Hs tokenId token Htoken)
    as (_ & _ & metadata & -> & _).
  done.
Qed.

Lemma metadata_request_changes_nothing_witness :
  handleMetadataRequested served (try_uri served) 42 busyStore
  = Some busyStore.
Proof. apply metadata_request_changes_nothing. busy_reachable. Defined.

(** X18.  A metadata request for a Token that has no metadata record
    stores the record the resolver returns, linked to the token, and copies
    its name, description, image and reward id into the Token; the supply,
    the creator and the other fields of the Token stay. *)
Theorem metadata_request_fills_token net try_tokenURI tokenId s token s' :
  tokens s !! tokenId = Some token →
  tokenMetadata s !! tokenId = None →
  handleMetadataRequested net try_tokenURI tokenId s = Some s' →
  ∃ metadata t,
    tokenMetadata s' !! tokenId = Some metadata
    ∧ tokens s' !! tokenId = Some t
    ∧ md_token metadata = tokenId ∧ t_metadata t = Some tokenId
    ∧ t_name t = md_name metadata
    ∧ t_description t = md_description metadata
    ∧ t_image t = md_image metadata
    ∧ t_rewardId t = md_rewardId metadata
    ∧ currentSupply t = currentSupply token
    ∧ t_creator t = t_creator token
    ∧ t_tokenURI t = t_tokenURI token
    ∧ ∀ id, id ≠ tokenId → tokens s' !! id = tokens s !! id.
Proof.
  intros Htoken Hnone. unfold handleMetadataRequested.
  rewrite Htoken, Hnone.
  destruct (fetchAndParseMetadata _ _ _ _) as [[md sA]|] eqn:E; [|done].
  pose proof (fetchAndParseMetadata_writes _ _ _ _ _ _ E) as [Eid Emd].
  pose proof (fetchAndParseMetadata_ledger _ _ _ _ _ _ E) as (Etokens & _).
  cbn [mbind option_bind md_id]. intros H. apply (inj Some) in H as <-.
  proj_cbn. rewrite Eid, !lookup_insert_eq.
  eexists _, _. repeat split.
  intros id Hid. by rewrite lookup_insert_ne, Etokens.
Qed.

Lemma metadata_request_fills_token_witness :
  ∃ metadata t,
    tokenMetadata
      (default emptyStore
         (handleMetadataRequested served (try_uri served) 42
            (with_tokenMetadata (delete 42) createdStore))) !! 42
    = Some metadata
    ∧ tokens
        (default emptyStore
           (handleMetadataRequested served (try_uri served) 42
              (with_tokenMetadata (delete 42) createdStore))) !! 42
      = Some t
    ∧ md_token metadata = 42 ∧ t_metadata t = Some 42
    ∧ t_name t = md_name metadata.
Proof.
  destruct (metadata_request_fills_token served (try_uri served) 42
              (with_tokenMetadata (delete 42) createdStore) token42
              (default emptyStore
                 (handleMetadataRequested served (try_uri served) 42
                    (with_tokenMetadata (delete 42) createdStore))))
    as (metadata & t & Hmd & Ht & Hlink & Hmeta & Hname & _).
  - vm_compute. reflexivity.
  - vm_compute. reflexivity.
  - apply some_default. vm_compute. reflexivity.
  - exists metadata, t. by repeat split.
Defined.

Lemma saveWithProperties_links tokenId metadata forgeId s metadata' s' :
  saveWithProperties tokenId metadata forgeId s = (metadata', s') →
  tokenMetadata s' !! tokenId = Some metadata'
  ∧ md_properties metadata' = Some tokenId
  ∧ md_token metadata' = md_token metadata
  ∧ md_name metadata' = md_name metadata
  ∧ tokenProperties s' !! tokenId
    = Some {| tp_metadata := tokenId; tp_badgeType := ""; tp_createdBy := "";
              tp_rewardId := md_rewardId metadata';
              tp_forgeId := forgeId |}.
Proof.
  unfold saveWithProperties. intros [= <- <-]. proj_cbn.
  by rewrite !lookup_insert_eq.
Qed.

(** X19.  Whatever the URI and whatever IPFS answers, metadata returned by
    the fetcher class is stored under the token id, is linked to the
    token, and refers to a stored properties record that points back to it
    and carries the same reward id; badge type and creator of the
    properties are always empty. *)
Theorem fetcher_links_properties net tokenId tokenURI s metadata s' :
  fetchMetadata net tokenId tokenURI s = Some (metadata, s') →
  tokenMetadata s' !! tokenId = Some metadata
  ∧ md_token metadata = tokenId
  ∧ md_properties metadata = Some tokenId
  ∧ ∃ forgeId,
      tokenProperties s' !! tokenId
      = Some {| tp_metadata := tokenId; tp_badgeType := "";
                tp_createdBy := ""; tp_rewardId := md_rewardId metadata;
                tp_forgeId := forgeId |}.
Proof.
  unfold fetchMetadata, fetchFromIPFS, fetchFromHTTP, parseMetadataObject,
    createDefaultMetadata, createPlaceholderMetadata.
  intros H.
  assert (∃ m forgeId, md_token m = tokenId
            ∧ saveWithProperties tokenId m forgeId s = (metadata, s'))
    as (m & forgeId & Htoken & Hsave).
  { destruct (startsWith tokenURI "ipfs://").
    - destruct (ipfs_cat net 0 _ ≫= try_fromBytes net) as [metadataJson|].
      + destruct (toObject metadataJson) as [metadataObj|]; [|done].
        cbn [mbind option_bind] in H.
        destruct (stringOr (get "name" metadataObj) _); [|done].
        destruct (stringOr (get "description" metadataObj) _); [|done].
        destruct (stringOr (get "image" metadataObj) _); [|done].
        destruct (stringOr (get "rewardId" metadataObj) _); [|done].
        destruct (stringOr (get "forge_id" metadataObj) _); [|done].
        cbn [mbind option_bind] in H. apply (inj Some) in H.
        eexists _, _. split; [|exact H]. reflexivity.
      + apply (inj Some) in H. eexists _, _. split; [|exact H]. reflexivity.
    - destruct (startsWith tokenURI "http"); apply (inj Some) in H.
      + repeat case_decide; (eexists _, _; split; [|exact H]; reflexivity).
      + eexists _, _. split; [|exact H]. reflexivity. }
  apply saveWithProperties_links in Hsave as (? & ? & ? & ? & ?).
  repeat split; [done|congruence|done|by exists forgeId].
Qed.

Lemma fetcher_links_properties_witness :
  ∃ metadata s',
    fetchMetadata garbled 2 "https://forge.example/2.json" emptyStore
    = Some (metadata, s')
    ∧ tokenMetadata s' !! 2 = Some metadata
    ∧ md_name metadata = "Slicer Achievement"
    ∧ md_properties metadata = Some 2.
Proof.
  eexists _, _. split; [vm_compute; reflexivity|].
  destruct (fetcher_links_properties garbled 2 "https://forge.example/2.json"
              emptyStore
              (fst (createPlaceholderMetadata 2 emptyStore))
              (snd (createPlaceholderMetadata 2 emptyStore)))
    as (Hmd & _ & Hprops & _).
  - vm_compute. reflexivity.
  - split; [exact Hmd|]. split; [reflexivity|exact Hprops].
Defined.

(** ** The backfill of the development server *)

Lemma chunkLoop_foldl {A : Type} (body : Z → Z → A → A) currentBlock :
  ∀ fromBlock acc,
    chunkLoop body fromBlock currentBlock acc
    = foldl (λ acc r, body r.1 r.2 acc) acc
        (issuedRanges fromBlock currentBlock).
Proof.
  intros fromBlock. 
  apply (issuedRanges_ind currentBlock
           (λ fromBlock ranges,
              ∀ acc, chunkLoop body fromBlock currentBlock acc
                     = foldl (λ acc r, body r.1 r.2 acc) acc ranges)).
  - intros f Hstop acc. rewrite chunkLoop_equation_1.
    by destruct (decide (f < currentBlock)).
  - intros f Hlt toBlock IH acc. rewrite chunkLoop_equation_1.
    destruct (decide (f < currentBlock)); [|done]. simpl.
    apply IH.
Qed.

Section BackfillProperties.
Variable queryFilter : nat → string → Z → Z → option (list RawEvent).

Lemma queryWithRetry_answered name f t p chunkEvents :
  queryFilter p name f t = Some chunkEvents →
  queryWithRetry queryFilter maxRetries name f t p = (chunkEvents, p).
Proof. intros H. cbn [maxRetries queryWithRetry]. by rewrite H. Qed.

Lemma queryWithRetry_silent name f t p :
  (∀ q, queryFilter q name f t = None) →
  (queryWithRetry queryFilter maxRetries name f t p).1 = [].
Proof. intros H. cbn [maxRetries queryWithRetry]. by rewrite !H. Qed.

(** X20.  With a provider that answers every query, the backfill of one
    event kind asks for exactly the sub-ranges the chunking loop issues, in
    order, and returns the answers one after the other, each event stamped
    with the name asked for; the provider in use stays the same. *)
Theorem backfill_concatenates_the_chunks name fromBlock currentBlock p :
  (∀ f t, is_Some (queryFilter p name f t)) →
  getEventsWithRetryInChunks queryFilter name fromBlock currentBlock p
  = (mjoin ((λ r, named name <$> default [] (queryFilter p name r.1 r.2))
            <$> issuedRanges fromBlock currentBlock), p).
Proof.
  intros Hanswer. unfold getEventsWithRetryInChunks.
  rewrite chunkLoop_foldl.
  assert (∀ ranges acc,
            foldl (λ (acc : list RawEvent * nat) (r : Z * Z),
                     let '(allEvents, provider) := acc in
                     let '(chunkEvents, provider) :=
                       queryWithRetry queryFilter maxRetries name r.1 r.2
                         provider in
                     ((allEvents ++ map (named name) chunkEvents)%list,
                      provider)) (acc, p) ranges
            = ((acc ++ mjoin ((λ r, named name
                                      <$> default [] (queryFilter p name
                                                        r.1 r.2))
                              <$> ranges))%list, p)) as Hfold.
  { induction ranges as [|r ranges IH]; intros acc.
    - simpl. by rewrite app_nil_r.
    - cbn [foldl]. destruct (Hanswer r.1 r.2) as [chunkEvents Hr].
      rewrite (queryWithRetry_answered _ _ _ _ _ Hr), IH.
      rewrite fmap_cons, Hr. cbn [mjoin list_join default].
      by rewrite <- app_assoc. }
  exact (Hfold _ []).
Qed.

(** X21.  Each sub-range is tried on the provider in use and then on the
    next two: three attempts, with a switch of provider after the first and
    after the second failure and none after the third; the first answer is
    taken.  When no provider answers any query, the backfill raises no
    error: every sub-range is given up after its three attempts, the result
    is the empty list, and the provider has been switched twice per
    sub-range. *)
Theorem backfill_hides_failures name fromBlock currentBlock p :
  (∀ f t q,
     queryWithRetry queryFilter maxRetries name f t q
     = match queryFilter q name f t with
       | Some chunkEvents => (chunkEvents, q)
       | None =>
           match queryFilter (switchProvider q) name f t with
           | Some chunkEvents => (chunkEvents, switchProvider q)
           | None =>
               match queryFilter (switchProvider (switchProvider q))
                       name f t with
               | Some chunkEvents =>
                   (chunkEvents, switchProvider (switchProvider q))
               | None => ([], switchProvider (switchProvider q))
               end
           end
       end)
  ∧ ((∀ q f t, queryFilter q name f t = None) →
     getEventsWithRetryInChunks queryFilter name fromBlock currentBlock p
     = ([], Nat.iter (2 * length (issuedRanges fromBlock currentBlock))
              switchProvider p)).
Proof.
  split.
  - intros f t q. cbn [maxRetries queryWithRetry].
    by repeat case_match.
  - intros Hfail. unfold getEventsWithRetryInChunks.
    rewrite chunkLoop_foldl.
    generalize (issuedRanges fromBlock currentBlock) as ranges.
    intros ranges. revert p.
    induction ranges as [|r ranges IH]; intros q; [done|].
    cbn [foldl maxRetries queryWithRetry]. rewrite !Hfail.
    cbn [map app]. rewrite IH. f_equal.
    replace (2 * length (r :: ranges))%nat
      with (S (S (2 * length ranges))) by (simpl; lia).
    by rewrite !Nat.iter_succ_r.
Qed.
End BackfillProperties.

Lemma backfill_concatenates_the_chunks_witness :
  getEventsWithRetryInChunks
    (λ _ _ f _, Some [logAt "Transfer" f 0])
    "TransferSingle" 29970000 30015002 0
  = ([logAt "TransferSingle" 29970000 0;
      logAt "TransferSingle" 30015001 0], 0%nat).
Proof.
  rewrite (backfill_concatenates_the_chunks
             (λ _ _ f _, Some [logAt "Transfer" f 0])
             "TransferSingle" 29970000 30015002 0).
  - rewrite issuedRanges_unfold. simpl. rewrite issuedRanges_unfold. simpl.
    by rewrite issuedRanges_unfold.
  - intros f t. by eexists.
Defined.

Lemma backfill_hides_failures_witness :
  getEventsWithRetryInChunks (λ _ _ _ _, None) "TokenCreated"
    29970000 30015002 0
  = ([], 1%nat).
Proof.
  rewrite (proj2 (backfill_hides_failures (λ _ _ _ _, None) "TokenCreated"
                    29970000 30015002 0)).
  - rewrite issuedRanges_unfold. simpl. rewrite issuedRanges_unfold. simpl.
    by rewrite issuedRanges_unfold.
  - reflexivity.
Defined.

Lemma head_block_coverage_witness :
  timesCovered 30015000 (issuedRanges 29970000 30015000) = 1%nat.
Proof.
  rewrite (head_block_coverage 30015000 29970000); [reflexivity|lia].
Defined.

Lemma chunks_below_head_witness :
  timesCovered 30015000 (issuedRanges 29970000 30015001) = 1%nat.
Proof.
  apply (proj2 (proj2 (chunks_below_head 29970000 30015001)) 30015000). lia.
Defined.

(** ** The counters, event by event *)

Lemma counted_ext dT dM s0 s s' :
  globalStats s' = globalStats s → counted dT dM s0 s → counted dT dM s0 s'.
Proof. unfold counted. intros H. by rewrite (statsOf_ext _ _ H). Qed.

Lemma counted_registerUser dT dM s0 address s :
  counted dT dM s0 s → counted dT dM s0 (registerUser address s).
Proof.
  unfold counted, registerUser. destruct (users s !! address); [done|].
  by rewrite statsOf_updateGlobalStats.
Qed.

Lemma counted_updateUserBalance dT dM s0 address tokenId amount timestamp s :
  counted dT dM s0 s →
  counted dT dM s0 (updateUserBalance address tokenId amount timestamp s).
Proof.
  intros Hs. eapply counted_ext; [apply globalStats_updateUserBalance|].
  by apply counted_registerUser.
Qed.

Lemma counted_updateGlobalStats dT dM s0 timestamp
    (incTokens incMints incUsers : bool) s :
  counted (dT - (if incTokens then 1 else 0))
    (dM - (if incMints then 1 else 0)) s0 s →
  counted dT dM s0
    (updateGlobalStats timestamp incTokens incMints incUsers s).
Proof.
  unfold counted. rewrite statsOf_updateGlobalStats. simpl.
  destruct incTokens, incMints; lia.
Qed.

Lemma counted_trans a b c d s0 s1 s2 :
  counted a b s0 s1 → counted c d s1 s2 → counted (a + c) (b + d) s0 s2.
Proof. unfold counted. lia. Qed.

(** Peel the store updates off a goal [counted _ _ _ _]. *)
Ltac counted_peel :=
  repeat (eapply counted_ext; [store_cbn; reflexivity|];
          first [ apply counted_registerUser
                | apply counted_updateUserBalance
                | apply counted_updateGlobalStats ]);
  try (eapply counted_ext; [store_cbn; reflexivity|]).

Lemma counted_handleTokenMint to tokenId amount operator event s :
  counted 0 1 s (handleTokenMint to tokenId amount operator event s).
Proof.
  unfold handleTokenMint. step_user.
  destruct (tokens _ !! tokenId) as [t|]; cbn beta iota zeta;
    destruct (inventory _ !! (to, tokenId)); repeat step_user.
  all: counted_peel; unfold counted; simpl; lia.
Qed.

Lemma counted_transferBatchLoop event operator from to ids :
  ∀ values s s',
    transferBatchLoop event operator from to ids values s = Some s' →
    counted 0 (if decide (from = ZERO_ADDRESS)
               then Z.of_nat (length ids) else 0) s s'.
Proof.
  induction ids as [|tokenId ids IH]; intros values s s' H;
    cbn [transferBatchLoop] in H.
  - apply (inj Some) in H as <-. unfold counted. case_decide; simpl; lia.
  - destruct values as [|amount values]; [done|].
    apply IH in H. revert H. case_decide as Hzero; intros H.
    + replace (Z.of_nat (length (tokenId :: ids)))
        with (1 + Z.of_nat (length ids)) by (simpl; lia).
      change 0 with (0 + 0) at 1.
      eapply counted_trans; [apply counted_handleTokenMint|exact H].
    + change 0 with (0 + 0).
      eapply counted_trans; [|exact H].
      do 2 apply counted_updateUserBalance. unfold counted. lia.
Qed.

Lemma counted_applyEvent net e s s' :
  applyEvent net e s = Some s' → counted (creationsOf e) (mintsOf e) s s'.
Proof.
  destruct e; cbn [applyEvent creationsOf mintsOf]; intros H.
  - unfold handleTokenCreated in H.
    destruct (tokens s !! tokenId) as [t|].
    + cbn [mbind option_bind] in H. revert H. repeat step_user. intros H.
      apply (inj Some) in H as <-. counted_peel. unfold counted. simpl. lia.
    + destruct (fetchAndParseMetadata _ _ _ _) as [[md sA]|] eqn:E; [|done].
      apply fetchAndParseMetadata_ledger in E as (_&_&_& Egs &_).
      cbn [mbind option_bind] in H. revert H. repeat step_user. intros H.
      apply (inj Some) in H as <-. counted_peel.
      unfold counted. rewrite (statsOf_ext _ _ Egs). simpl. lia.
  - apply (inj Some) in H as <-. unfold handleTransferSingle. case_decide.
    + apply counted_handleTokenMint.
    + counted_peel. unfold counted. lia.
  - unfold handleTransferBatch in H.
    destruct (transferBatchLoop _ _ _ _ _ _ _) as [sA|] eqn:E; [|done].
    cbn [mbind option_bind] in H. apply (inj Some) in H as <-.
    eapply counted_ext; [store_cbn; reflexivity|].
    by eapply counted_transferBatchLoop.
  - apply (inj Some) in H as <-. unfold handleRoleGranted, handleRoleChange.
    repeat step_user. counted_peel. unfold counted. lia.
  - apply (inj Some) in H as <-. unfold handleRoleRevoked, handleRoleChange.
    repeat step_user. counted_peel. unfold counted. lia.
Qed.

Lemma countersOffset_register c d address u s :
  countersOffset c d s →
  countersOffset c d (with_users (insert address u) (registerUser address s)).
Proof.
  unfold countersOffset, registerUser. intros [Hu He].
  destruct (users s !! address) as [k|] eqn:Hk.
  - erewrite statsOf_ext by (proj_cbn; reflexivity). proj_cbn.
    by rewrite size_insert_known by eauto.
  - erewrite statsOf_ext by (proj_cbn; reflexivity).
    rewrite statsOf_updateGlobalStats. proj_cbn.
    rewrite map_size_insert_None by done. simpl. lia.
Qed.

Lemma countersOffset_step c d s s' :
  step s s' → countersOffset c d s → countersOffset c d s'.
Proof.
  unfold countersOffset at 1.
  destruct 1 as [s s' Hl _|a s|a k u s Hk _ _ _|a t v ts s|ts b1 b2 s Hflags
                 |ts b1 b2 s _| | | | | | | ]; intros [Hu He];
    try exact (conj Hu He).
  - destruct Hl as (_ & _ & Husers & Hg & _). unfold countersOffset.
    by rewrite (statsOf_ext _ _ Hg), Husers.
  - by apply countersOffset_register.
  - unfold countersOffset. erewrite statsOf_ext by (proj_cbn; reflexivity).
    proj_cbn. by rewrite size_insert_known by eauto.
  - assert (countersOffset c d
              (with_users
                 (insert a (knownUser a s)) (registerUser a s))) as Hreg
      by by apply countersOffset_register.
    unfold countersOffset in *.
    rewrite (statsOf_ext _ _ (globalStats_updateUserBalance a t v ts s)).
    rewrite users_updateUserBalance.
    erewrite statsOf_ext in Hreg by (proj_cbn; reflexivity).
    destruct Hreg as [Hregu Hrege]. split; [|exact Hrege].
    rewrite Hregu. proj_cbn. autorewrite with store.
    destruct (decide (is_Some (users s !! a))) as [Hk|Hk].
    + by rewrite !size_insert_known.
    + apply eq_None_not_Some in Hk. by rewrite !map_size_insert_None.
  - unfold countersOffset. rewrite statsOf_updateGlobalStats. proj_cbn.
    simpl. destruct b1, b2; try done; lia.
Qed.

Lemma countersOffset_applyEvent c d net e s s' :
  applyEvent net e s = Some s' → countersOffset c d s → countersOffset c d s'.
Proof.
  intros H. apply steps_applyEvent in H.
  induction H as [|s1 s2 s3 Hstep _ IH]; [done|].
  intros Hs. apply IH. by eapply countersOffset_step.
Qed.

Lemma globalStats_registerUser_known address s :
  is_Some (users s !! address) →
  globalStats (registerUser address s) = globalStats s.
Proof. intros H. by rewrite registerUser_known. Qed.

(** C4, as the handlers behave.  One call of [updateGlobalStats] adds one
    to the total-event counter and one to each counter whose flag is set.
    The handlers call it with exactly one flag: an applied creation event
    adds one to the token counter, every mint (a single mint, or each
    element of a batch mint) one to the mint counter, and every User record
    that comes into being one to the user counter; the total-event counter
    grows by the sum of the three, so that in every reachable store it is
    the sum of the token, mint and user counters.  It does not count
    events: a plain transfer between existing users and a role event for an
    existing user leave the statistics untouched. *)
Theorem global_counters :
  (∀ timestamp incTokens incMints incUsers s,
     let g := statsOf s in
     let g' := statsOf (updateGlobalStats timestamp incTokens incMints
                          incUsers s) in
     totalEvents g' = totalEvents g + 1
     ∧ totalTokens g' = totalTokens g + (if incTokens then 1 else 0)
     ∧ totalMints g' = totalMints g + (if incMints then 1 else 0)
     ∧ totalUsers g' = totalUsers g + (if incUsers then 1 else 0))
  ∧ (∀ s, reachable s →
       totalEvents (statsOf s)
       = totalTokens (statsOf s) + totalMints (statsOf s)
         + totalUsers (statsOf s))
  ∧ (∀ net e s s',
       applyEvent net e s = Some s' →
       totalTokens (statsOf s') = totalTokens (statsOf s) + creationsOf e
       ∧ totalMints (statsOf s') = totalMints (statsOf s) + mintsOf e
       ∧ totalUsers (statsOf s')
         = totalUsers (statsOf s) + usersCreated s s'
       ∧ totalEvents (statsOf s')
         = totalEvents (statsOf s) + creationsOf e + mintsOf e
           + usersCreated s s')
  ∧ (∀ event operator from to id value s,
       from ≠ ZERO_ADDRESS →
       is_Some (users s !! from) → is_Some (users s !! to) →
       globalStats (handleTransferSingle event operator from to id value s)
       = globalStats s)
  ∧ (∀ granted event role account sender s,
       is_Some (users s !! account) →
       globalStats (handleRoleChange granted event role account sender s)
       = globalStats s).
Proof.
  split; [|split; [|split; [|split]]].
  - intros timestamp incTokens incMints incUsers s g g'. subst g g'.
    rewrite statsOf_updateGlobalStats.
    destruct incTokens, incMints, incUsers; simpl; lia.
  - intros s Hs. change (tallied s).
    induction Hs as [|net e s s' _ IH Hstep]; [done|].
    by eapply tallied_applyEvent.
  - intros net e s s' H.
    destruct (counted_applyEvent _ _ _ _ H) as [Htokens Hmints].
    destruct (countersOffset_applyEvent
                (totalUsers (statsOf s) - Z.of_nat (size (users s)))
                (totalEvents (statsOf s)
                 - (totalTokens (statsOf s) + totalMints (statsOf s)
                    + totalUsers (statsOf s)))
                _ _ _ _ H) as [Husers Hevents];
      [unfold countersOffset; lia|].
    unfold usersCreated. lia.
  - intros event operator from to id value s Hfrom Hsender Hreceiver.
    unfold handleTransferSingle. rewrite decide_False by done. proj_cbn.
    rewrite globalStats_updateUserBalance, globalStats_registerUser_known.
    + by rewrite globalStats_updateUserBalance,
        globalStats_registerUser_known.
    + rewrite users_updateUserBalance, lookup_insert. by case_decide.
  - intros granted event role account sender s Haccount.
    unfold handleRoleChange. repeat step_user. proj_cbn.
    rewrite globalStats_registerUser_known
      by (proj_cbn; by rewrite lookup_insert_eq).
    proj_cbn. by apply globalStats_registerUser_known.
Qed.

Lemma global_counters_witness :
  totalEvents (statsOf ledgerStore)
  = totalTokens (statsOf ledgerStore) + totalMints (statsOf ledgerStore)
    + totalUsers (statsOf ledgerStore)
  ∧ totalMints
      (statsOf (default emptyStore (applyEvent offline mint42 createdStore)))
    = totalMints (statsOf createdStore) + mintsOf mint42
  ∧ globalStats
      (handleRoleChange true (eventAt 7 0 alice) MINTER_ROLE bob alice
         grantedStore)
    = globalStats grantedStore.
Proof.
  split; [|split].
  - apply (proj1 (proj2 global_counters) ledgerStore).
    apply reachableKnown_reachable.
    eapply (applyKnownEvents_reachable offline [create42; mint42; move42]);
      [constructor|].
    apply some_default. vm_compute. reflexivity.
  - destruct (proj1 (proj2 (proj2 global_counters)) offline mint42
                createdStore
                (default emptyStore (applyEvent offline mint42 createdStore)))
      as (_ & Hmints & _); [|exact Hmints].
    apply some_default. vm_compute. reflexivity.
  - exact (proj2 (proj2 (proj2 (proj2 global_counters))) true
             (eventAt 7 0 alice) MINTER_ROLE bob alice grantedStore
             (ex_intro _ _ eq_refl)).
Defined.
